(** * Shader resource and binding descriptor model (shader_recompiler/info.h)

    A shallow embedding of the [Info] record of the shader recompiler and of
    the bind-time algorithms defined next to it: the user-data register map,
    the binding accumulator, the per-draw constant packer, the descriptor
    resolver and the draw-offset extraction.

    Machine integers are values of [Z] with the wrap-around of their width
    written out; arrays and spans are lists read with [!!] and updated with
    [<[ _ := _ ]>]; failures of the C++ code (assertions, reads outside a
    span) are results of an error type. *)

From Stdlib Require Import ZArith List Lia Bool Permutation Sorted.
From stdpp Require Import base list list_numbers strings gmap.
Import ListNotations.

Local Open Scope Z_scope.

(** ** Fixed-width integers *)

Definition u32 (x : Z) : Z := x mod 2 ^ 32.

(** [int] arithmetic as the target evaluates it: 32-bit two's complement. *)
Definition s32 (x : Z) : Z := (x + 2 ^ 31) mod 2 ^ 32 - 2 ^ 31.

Definition is_u32 (x : Z) : Prop := 0 <= x < 2 ^ 32.

(** The 32 bit positions of a [u32], lowest first. *)
Definition bit_positions : list Z := seqZ 0 32.

(** The positions of the 1 bits of a word, lowest first. *)
Definition set_bits (x : Z) : list Z := List.filter (Z.testbit x) bit_positions.

(** [std::popcount] on a [u32]: one pass over the 32 bit positions. *)
Fixpoint popcount_from (n : nat) (x i : Z) : Z :=
  match n with
  | O => 0
  | S n' => Z.b2z (Z.testbit x i) + popcount_from n' x (i + 1)
  end.

Definition popcount (x : Z) : Z := popcount_from 32 x 0.

(** [std::countr_zero] on a [u32]: the number of consecutive 0 bits starting
    at the least significant one, 32 for the word 0. *)
Fixpoint countr_zero_from (n : nat) (x i : Z) : Z :=
  match n with
  | O => i
  | S n' => if Z.testbit x i then i else countr_zero_from n' x (i + 1)
  end.

Definition countr_zero (x : Z) : Z := countr_zero_from 32 x 0.

(** [x << n] on [int] and on [unsigned]: defined for a count below the width
    only. *)
Definition shl_int (x n : Z) : option Z :=
  if (0 <=? n) && (n <? 32) then Some (s32 (Z.shiftl x n)) else None.

Definition shl_u32 (x n : Z) : option Z :=
  if (0 <=? n) && (n <? 32) then Some (u32 (Z.shiftl x n)) else None.

(** ** Results of fallible code *)

Inductive fault : Type :=
| AssertFailed      (* ASSERT(...) did not hold: the emulator aborts *)
| OutOfBounds       (* a read outside a span or array: no defined result *)
| BadShift          (* a shift by the width or more: no defined result *)
| OutOfFuel.        (* the loop bound of the model was exhausted *)

Inductive result (A : Type) : Type :=
| Ok (a : A)
| Err (f : fault).
Arguments Ok {A} a.
Arguments Err {A} f.

Definition rbind {A B : Type} (m : result A) (k : A -> result B) : result B :=
  match m with
  | Ok a => k a
  | Err f => Err f
  end.

Notation "x <- m ;; k" := (rbind m (fun x => k))
  (at level 100, m at next level, right associativity).

Definition of_option {A : Type} (f : fault) (o : option A) : result A :=
  match o with
  | Some a => Ok a
  | None => Err f
  end.

(** ** Memory

    A trivially copyable object is the list of its bytes, least significant
    byte of a word first.  The resolver reads from two places: the captured
    user-data words of the [Info] record, and emulated GPU memory, a map from
    64-bit addresses to bytes.  A pointer remembers which of the two it
    points into. *)

Definition bytes : Type := list Z.

Definition word_bytes (w : Z) : bytes :=
  [w mod 256; (w / 2 ^ 8) mod 256; (w / 2 ^ 16) mod 256; (w / 2 ^ 24) mod 256].

Definition le_decode (bs : bytes) : Z :=
  fold_right (fun b acc => b + 256 * acc) 0 bs.

(** The object representation of a span of 32-bit words. *)
Definition span_bytes (ws : list Z) : bytes := flat_map word_bytes ws.

Inductive pointer : Type :=
| UdPtr (off : Z)     (* byte offset from [user_data.data()] *)
| MemPtr (addr : Z).  (* address in emulated GPU memory *)

Definition ptr_add (p : pointer) (n : Z) : pointer :=
  match p with
  | UdPtr off => UdPtr (off + n)
  | MemPtr a => MemPtr (a + n)
  end.

Definition memory : Type := Z -> Z.

(** One entry per [std::memcpy] out of a pointer: where from, how many
    bytes. *)
Inductive access : Type :=
| Load (p : pointer) (len : Z).

Definition is_mem_access (a : access) : bool :=
  match a with
  | Load (MemPtr _) _ => true
  | Load (UdPtr _) _ => false
  end.

(** A computation that reads memory: the reads it made, in order, and its
    result. *)
Definition traced (A : Type) : Type := (list access * result A)%type.

Definition tret {A : Type} (a : A) : traced A := ([], Ok a).

Definition tbind {A B : Type} (m : traced A) (k : A -> traced B) : traced B :=
  match m with
  | (l1, Ok a) => let (l2, r) := k a in (l1 ++ l2, r)
  | (l1, Err f) => (l1, Err f)
  end.

Notation "x <~ m ;; k" := (tbind m (fun x => k))
  (at level 100, m at next level, right associativity).

(** [std::memcpy(&dst, p, len)]. *)
Definition load (ud : list Z) (mem : memory) (p : pointer) (len : Z) : traced bytes :=
  match p with
  | UdPtr off =>
      if (0 <=? off) && (off + len <=? 4 * Z.of_nat (length ud))
      then ([Load p len], Ok (take (Z.to_nat len) (drop (Z.to_nat off) (span_bytes ud))))
      else ([Load p len], Err OutOfBounds)
  | MemPtr a => ([Load p len], Ok (map mem (seqZ a len)))
  end.

(** ** Constants of the header *)

Definition NumUserDataRegs : Z := 16.
Definition MaxUboSize : Z := 65536.
Definition MaxUboDwords : Z := Z.shiftr MaxUboSize 2.

(** ** Declarations of other headers

    [IR::NumScalarRegs] (ir/reg.h) and the descriptor types of
    video_core/amdgpu/resource.h are used here and declared elsewhere; the
    model takes them as parameters.  A descriptor is kept as its bytes. *)

Record Decls : Type := {
  NumScalarRegs : Z;
  sizeof_Buffer : Z;
  sizeof_Image : Z;
  sizeof_Sampler : Z;
  Buffer_GetSize : bytes -> Z;      (* AmdGpu::Buffer::GetSize *)
  Buffer_bool : bytes -> bool;      (* AmdGpu::Buffer::operator bool *)
  Sampler_bool : bytes -> bool;     (* AmdGpu::Sampler::operator bool *)
}.

(** ** Backend::Bindings

    Modelled from the spec: the binding accumulator of backend/bindings.h,
    "running counters (buffer slot, unified/combined slot, user-data register
    slot)" that persist across the stages of one pipeline.  The counters are
    unsigned 32-bit, as every counter of this header is. *)

Module Bindings.
Record t : Type := {
  unified : Z;
  buffer : Z;
  user_data : Z;
}.
Definition zero : t := {| unified := 0; buffer := 0; user_data := 0 |}.
End Bindings.

(** ** Resource entries *)

Module BufferResource.
Record t : Type := {
  sgpr_base : Z;
  dword_offset : Z;
  used_types : Z;
  inline_cbuf : bytes;
  is_gds_buffer : bool;
  is_instance_data : bool;
  is_written : bool;
}.

Definition IsStorage (d : Decls) (r : t) (buffer : bytes) : bool :=
  (MaxUboSize <? Buffer_GetSize d buffer) || is_written r || is_gds_buffer r.
End BufferResource.

Module TextureBufferResource.
Record t : Type := {
  sgpr_base : Z;
  dword_offset : Z;
  nfmt : Z;
  is_written : bool;
}.
End TextureBufferResource.

Module ImageResource.
Record t : Type := {
  sgpr_base : Z;
  dword_offset : Z;
  type : Z;
  nfmt : Z;
  is_storage : bool;
  is_depth : bool;
  is_atomic : bool;
  is_array : bool;
}.
End ImageResource.

Module SamplerResource.
Record t : Type := {
  sgpr_base : Z;
  dword_offset : Z;
  inline_sampler : bytes;
  associated_image : Z;
  disable_aniso : Z;
}.
End SamplerResource.

(** ** PushData: the per-draw constant block *)

Module PushData.
Definition BufOffsetIndex : Z := 2.
Definition UdRegsIndex : Z := 4.

Record t : Type := {
  step0 : Z;
  step1 : Z;
  buf_offsets : list Z;   (* std::array<u8, 32> *)
  ud_regs : list Z;       (* std::array<u32, NumUserDataRegs> *)
}.

Definition set_ud_reg (p : t) (i : Z) (v : Z) : t :=
  {| step0 := step0 p; step1 := step1 p; buf_offsets := buf_offsets p;
     ud_regs := <[Z.to_nat i := v]> (ud_regs p) |}.

Definition AddOffset (p : t) (binding offset : Z) : result t :=
  if (offset <? 256) && (binding <? Z.of_nat (length (buf_offsets p))) then
    Ok {| step0 := step0 p; step1 := step1 p;
          buf_offsets := <[Z.to_nat binding := offset]> (buf_offsets p);
          ud_regs := ud_regs p |}
  else Err AssertFailed.

(** The member types, and the layout a C++ compiler gives the struct:
    each member at the next offset that is a multiple of its alignment,
    the size rounded up to the largest alignment. *)
Inductive ctype : Type :=
| U8
| U32
| Array (elem : ctype) (n : Z).

Fixpoint sizeof (c : ctype) : Z :=
  match c with
  | U8 => 1
  | U32 => 4
  | Array e n => n * sizeof e
  end.

Fixpoint alignof (c : ctype) : Z :=
  match c with
  | U8 => 1
  | U32 => 4
  | Array e _ => alignof e
  end.

Definition align_up (off a : Z) : Z := ((off + a - 1) / a) * a.

Inductive member : Type := m_step0 | m_step1 | m_buf_offsets | m_ud_regs.

Definition members : list (member * ctype) :=
  [ (m_step0, U32); (m_step1, U32);
    (m_buf_offsets, Array U8 32); (m_ud_regs, Array U32 NumUserDataRegs) ].

(** Offset and size of each member, in declaration order, from the first
    free byte [off]. *)
Fixpoint place (ms : list (member * ctype)) (off : Z) : list (member * Z * Z) :=
  match ms with
  | [] => []
  | (m, c) :: rest =>
      let o := align_up off (alignof c) in
      (m, o, sizeof c) :: place rest (o + sizeof c)
  end.

Definition layout : list (member * Z * Z) := place members 0.

Definition struct_align : Z :=
  fold_right (fun mc a => Z.max (alignof (snd mc)) a) 1 members.

Definition struct_end : Z :=
  fold_left (fun _ e => snd (fst e) + snd e) layout 0.

(** [sizeof(PushData)]. *)
Definition size : Z := align_up struct_end struct_align.

(** A value of the struct type: its two arrays have their declared
    lengths and every member fits its type. *)
Definition wf (p : t) : Prop :=
  length (buf_offsets p) = 32%nat /\ length (ud_regs p) = Z.to_nat NumUserDataRegs.

(** The object representation of a block. *)
Definition repr (p : t) : bytes :=
  word_bytes (step0 p) ++ word_bytes (step1 p) ++ buf_offsets p ++ span_bytes (ud_regs p).
End PushData.

(** ** Info *)

Module UserDataMask.
Record t : Type := { mask : Z }.

(** [mask |= 1 << reg] *)
Definition Set_ (m : t) (reg : Z) : result t :=
  b <- of_option BadShift (shl_int 1 reg) ;;
  Ok {| mask := Z.lor (mask m) (u32 b) |}.

(** [reg_mask = (1 << reg) - 1; popcount(mask & reg_mask)] *)
Definition Index (m : t) (reg : Z) : result Z :=
  b <- of_option BadShift (shl_int 1 reg) ;;
  let reg_mask := u32 (s32 (b - 1)) in
  Ok (popcount (Z.land (mask m) reg_mask)).

Definition NumRegs (m : t) : Z := popcount (mask m).

(** A run of [Set] calls on the registers of [regs], first to last. *)
Fixpoint SetAll (m : t) (regs : list Z) : result t :=
  match regs with
  | [] => Ok m
  | r :: rest => m' <- Set_ m r ;; SetAll m' rest
  end.
End UserDataMask.

Module Info.
Record t : Type := {
  ud_mask : UserDataMask.t;
  vertex_offset_sgpr : Z;      (* s8, -1 when unset *)
  instance_offset_sgpr : Z;    (* s8, -1 when unset *)
  buffers : list BufferResource.t;
  texture_buffers : list TextureBufferResource.t;
  images : list ImageResource.t;
  samplers : list SamplerResource.t;
  user_data : list Z;          (* std::span<const u32> *)
}.

(** [user_data[i]] with [i] converted to [size_t]. *)
Definition ud_at (info : t) (i : Z) : result Z :=
  if i <? 0 then Err OutOfBounds
  else of_option OutOfBounds (user_data info !! Z.to_nat i).

Definition ReadUd (d : Decls) (info : t) (mem : memory)
    (sizeof_T : Z) (ptr_index dword_offset : Z) : traced bytes :=
  base <~ (if negb (ptr_index =? NumScalarRegs d) then
             raw <~ load (user_data info) mem (UdPtr (4 * ptr_index)) 8 ;;
             tret (MemPtr (Z.land (le_decode raw) 0xFFFFFFFFFFFF))
           else tret (UdPtr 0)) ;;
  load (user_data info) mem (ptr_add base (4 * dword_offset)) sizeof_T.

(** The body of the loop of [PushUd], run on the remaining [mask]. *)
Fixpoint PushUd_loop (fuel : nat) (info : t) (mask : Z)
    (bnd : Bindings.t) (push : PushData.t) : result (Bindings.t * PushData.t) :=
  if mask =? 0 then Ok (bnd, push)
  else
    match fuel with
    | O => Err OutOfFuel
    | S fuel' =>
        let index := countr_zero mask in
        if (Bindings.user_data bnd <? NumUserDataRegs) && (index <? NumUserDataRegs) then
          bit <- of_option BadShift (shl_u32 1 index) ;;
          let mask' := Z.land mask (u32 (Z.lnot bit)) in
          v <- ud_at info index ;;
          let slot := Bindings.user_data bnd in
          let bnd' := {| Bindings.unified := Bindings.unified bnd;
                         Bindings.buffer := Bindings.buffer bnd;
                         Bindings.user_data := u32 (slot + 1) |} in
          PushUd_loop fuel' info mask' bnd' (PushData.set_ud_reg push slot v)
        else Err AssertFailed
    end.

(** A [u32] has 32 bits and every turn of the loop clears one. *)
Definition PushUd (info : t) (bnd : Bindings.t) (push : PushData.t)
    : result (Bindings.t * PushData.t) :=
  PushUd_loop 32 info (UserDataMask.mask (ud_mask info)) bnd push.

Definition AddBindings (info : t) (bnd : Bindings.t) : Bindings.t :=
  let total_buffers :=
    Z.of_nat (length (buffers info)) + Z.of_nat (length (texture_buffers info)) in
  {| Bindings.buffer := u32 (Bindings.buffer bnd + total_buffers);
     Bindings.unified :=
       u32 (Bindings.unified bnd
            + (total_buffers + Z.of_nat (length (images info))
               + Z.of_nat (length (samplers info))));
     Bindings.user_data :=
       u32 (Bindings.user_data bnd + UserDataMask.NumRegs (ud_mask info)) |}.

Definition GetDrawOffsets (info : t) : result (Z * Z) :=
  vertex_offset <-
    (if negb (vertex_offset_sgpr info =? -1)
     then ud_at info (vertex_offset_sgpr info) else Ok 0) ;;
  instance_offset <-
    (if negb (instance_offset_sgpr info =? -1)
     then ud_at info (instance_offset_sgpr info) else Ok 0) ;;
  Ok (vertex_offset, instance_offset).
End Info.

(** ** GetSharp: the descriptor resolver *)

Definition BufferResource_GetSharp (d : Decls) (r : BufferResource.t)
    (info : Info.t) (mem : memory) : traced bytes :=
  if Buffer_bool d (BufferResource.inline_cbuf r)
  then tret (BufferResource.inline_cbuf r)
  else Info.ReadUd d info mem (sizeof_Buffer d)
         (BufferResource.sgpr_base r) (BufferResource.dword_offset r).

Definition TextureBufferResource_GetSharp (d : Decls) (r : TextureBufferResource.t)
    (info : Info.t) (mem : memory) : traced bytes :=
  Info.ReadUd d info mem (sizeof_Buffer d)
    (TextureBufferResource.sgpr_base r) (TextureBufferResource.dword_offset r).

Definition ImageResource_GetSharp (d : Decls) (r : ImageResource.t)
    (info : Info.t) (mem : memory) : traced bytes :=
  Info.ReadUd d info mem (sizeof_Image d)
    (ImageResource.sgpr_base r) (ImageResource.dword_offset r).

Definition SamplerResource_GetSharp (d : Decls) (r : SamplerResource.t)
    (info : Info.t) (mem : memory) : traced bytes :=
  if Sampler_bool d (SamplerResource.inline_sampler r)
  then tret (SamplerResource.inline_sampler r)
  else Info.ReadUd d info mem (sizeof_Sampler d)
         (SamplerResource.sgpr_base r) (SamplerResource.dword_offset r).

(** ** The packing loop over an explicit list of registers

    [push_regs info regs] is the body of the loop of [PushUd] run once for
    each register of [regs], in order.  [PushUd] is shown below to be
    [push_regs] on the set bits of the mask, lowest first. *)

Fixpoint push_regs (info : Info.t) (regs : list Z)
    (bnd : Bindings.t) (push : PushData.t) : result (Bindings.t * PushData.t) :=
  match regs with
  | [] => Ok (bnd, push)
  | index :: rest =>
      if (Bindings.user_data bnd <? NumUserDataRegs) && (index <? NumUserDataRegs) then
        v <- Info.ud_at info index ;;
        let slot := Bindings.user_data bnd in
        let bnd' := {| Bindings.unified := Bindings.unified bnd;
                       Bindings.buffer := Bindings.buffer bnd;
                       Bindings.user_data := u32 (slot + 1) |} in
        push_regs info rest bnd' (PushData.set_ud_reg push slot v)
      else Err AssertFailed
  end.

(** ** Info::AttributeFlags

    One byte of component bits for each attribute; the array has
    [IR::NumAttributes] entries, here the length of the list. *)

Definition u8 (x : Z) : Z := x mod 2 ^ 8.

Module AttributeFlags.
Record t : Type := { flags : list Z }.   (* std::array<u8, IR::NumAttributes> *)

Definition Index (attrib : Z) : Z := attrib.

(** [flags[Index(attrib)]] *)
Definition flag_at (f : t) (attrib : Z) : result Z :=
  if Index attrib <? 0 then Err OutOfBounds
  else of_option OutOfBounds (flags f !! Z.to_nat (Index attrib)).

Definition Get (f : t) (attrib comp : Z) : result bool :=
  v <- flag_at f attrib ;;
  bit <- of_option BadShift (shl_int 1 comp) ;;
  Ok (negb (Z.land v bit =? 0)).

Definition GetAny (f : t) (attrib : Z) : result bool :=
  v <- flag_at f attrib ;;
  Ok (negb (v =? 0)).

(** [flags[Index(attrib)] |= (1 << comp)]: the or is computed on [int] and
    stored back into the byte. *)
Definition Set_ (f : t) (attrib comp : Z) : result t :=
  v <- flag_at f attrib ;;
  bit <- of_option BadShift (shl_int 1 comp) ;;
  Ok {| flags := <[Z.to_nat (Index attrib) := u8 (Z.lor v bit)]> (flags f) |}.

Definition NumComponents (f : t) (attrib : Z) : Z := 4.

(** Every entry is a byte. *)
Definition wf (f : t) : Prop := Forall (fun v => 0 <= v < 256) (flags f).
End AttributeFlags.

(** ** Stages of a pipeline

    [AddBindings] of every stage on one accumulator, first stage first, and
    [PushUd] of every stage on one accumulator and one block. *)

Definition AddBindingsAll (stages : list Info.t) (bnd : Bindings.t) : Bindings.t :=
  fold_left (fun b info => Info.AddBindings info b) stages bnd.

Fixpoint PushUdAll (stages : list Info.t) (bnd : Bindings.t) (push : PushData.t)
    : result (Bindings.t * PushData.t) :=
  match stages with
  | [] => Ok (bnd, push)
  | info :: rest =>
      r <- Info.PushUd info bnd push ;;
      PushUdAll rest (fst r) (snd r)
  end.

(** What the stages of a list add to each counter. *)
Definition stage_buffers (info : Info.t) : Z :=
  Z.of_nat (length (Info.buffers info)) + Z.of_nat (length (Info.texture_buffers info)).

Definition stage_unified (info : Info.t) : Z :=
  stage_buffers info + Z.of_nat (length (Info.images info))
  + Z.of_nat (length (Info.samplers info)).

Definition total_of (f : Info.t -> Z) (stages : list Info.t) : Z :=
  fold_right (fun info acc => f info + acc) 0 stages.

Definition total_regs (stages : list Info.t) : Z :=
  total_of (fun info => UserDataMask.NumRegs (Info.ud_mask info)) stages.

(** A stage [PushUd] can pack: a 32-bit mask with every register below
    [NumUserDataRegs], and the registers captured. *)
Definition packable (info : Info.t) : Prop :=
  is_u32 (UserDataMask.mask (Info.ud_mask info))
  /\ Forall (fun i => i < NumUserDataRegs) (set_bits (UserDataMask.mask (Info.ud_mask info)))
  /\ (Z.to_nat NumUserDataRegs <= length (Info.user_data info))%nat.

(** ** fmt::formatter<Shader::Stage>

    The name printed for a stage: the entry of [names] at the value of the
    enumerator. *)

Definition stage_names : list string :=
  ["fs"; "vs"; "gs"; "es"; "hs"; "ls"; "cs"]%string.

Definition format_stage (stage : Z) : result string :=
  if stage <? 0 then Err OutOfBounds
  else of_option OutOfBounds (stage_names !! Z.to_nat stage).

(** ** GameGridFrame (qt_gui/game_grid_frame.cpp)

    The grid of the game list: the table is its column count, its row count
    and the widgets of its cells, a finite map from (row, column).  What a
    widget draws is left out; it keeps the two texts it is built from.  The
    loading, blurring and saving of the background picture are input and
    output and are not modelled: [SetGridBackgroundImage] ends at the two
    paths it computes. *)

Module GameGridFrame.

Record GameInfo : Type := {
  serial : string;
  name : string;
  pic_path : string;
}.

Record CellWidget : Type := {
  name_label : string;   (* QLabel(QString::fromStdString(serial)) *)
  tooltip : string;      (* widget->setToolTip(name) *)
}.

Definition make_widget (g : GameInfo) : CellWidget :=
  {| name_label := serial g; tooltip := name g |}.

Inductive outcome (A : Type) : Type :=
| Done (a : A)
| DivisionByZero     (* an integer division by zero *)
| BadIndex           (* an index outside a QVector *)
| LoopBound.         (* the loop bound of the model was exhausted *)
Arguments Done {A} a.
Arguments DivisionByZero {A}.
Arguments BadIndex {A}.
Arguments LoopBound {A}.

Record t : Type := {
  m_games : list GameInfo;          (* m_game_info->m_games *)
  m_icon_size_grid : Z;             (* the setting gui::m_icon_size_grid *)
  icon_size : Z;
  windowWidth : Z;
  columnCount : Z;
  rowCount : Z;
  cells : gmap (Z * Z) CellWidget;
  m_games_shared : list GameInfo;
}.

(** [v[i]] on a QVector with an [int] index. *)
Definition at_ (v : list GameInfo) (i : Z) : option GameInfo :=
  if i <? 0 then None else v !! Z.to_nat i.

(** The [for] loop of [PopulateGameGrid], from the test of [i] on. *)
Fixpoint populate_loop (fuel : nat) (m_games_ : list GameInfo) (gamesPerRow : Z)
    (i gameCounter row column : Z) (table : gmap (Z * Z) CellWidget)
    : outcome (gmap (Z * Z) CellWidget) :=
  if i <? Z.of_nat (length m_games_) then
    match fuel with
    | O => LoopBound
    | S fuel' =>
        match at_ m_games_ gameCounter with
        | None => BadIndex
        | Some g =>
            let table' := <[(row, column) := make_widget g]> table in
            let column1 := s32 (column + 1) in
            let row' := if column1 =? gamesPerRow then s32 (row + 1) else row in
            let column' := if column1 =? gamesPerRow then 0 else column1 in
            let gameCounter' := s32 (gameCounter + 1) in
            if Z.of_nat (length m_games_) <=? gameCounter' then Done table'
            else populate_loop fuel' m_games_ gamesPerRow (s32 (i + 1)) gameCounter'
                   row' column' table'
        end
    end
  else Done table.

Definition PopulateGameGrid (fr : t) (m_games_search : list GameInfo)
    (fromSearch : bool) : outcome t :=
  let m_games_ := if fromSearch then m_games_search else m_games fr in
  let icon_size' := m_icon_size_grid fr in
  let size := Z.of_nat (length m_games_) in
  let cell := s32 (icon_size' + 20) in
  if cell =? 0 then DivisionByZero
  else
    let gamesPerRow := s32 (Z.quot (windowWidth fr) cell) in
    if gamesPerRow =? 0 then DivisionByZero
    else
      let rowCount0 := s32 (Z.quot size gamesPerRow) in
      let rowCount' :=
        if negb (Z.rem size gamesPerRow =? 0) then s32 (rowCount0 + 1) else rowCount0 in
      match populate_loop (length m_games_) m_games_ gamesPerRow 0 0 0 0 ∅ with
      | Done table =>
          Done {| m_games := m_games fr;
                  m_icon_size_grid := m_icon_size_grid fr;
                  icon_size := icon_size';
                  windowWidth := windowWidth fr;
                  columnCount := gamesPerRow;
                  rowCount := rowCount';
                  cells := table;
                  m_games_shared := m_games_ |}
      | DivisionByZero => DivisionByZero
      | BadIndex => BadIndex
      | LoopBound => LoopBound
      end.

(** The paths of the picture and of its blurred copy, the latter relative
    to the directory of the application; [None] when the cell has no
    widget. *)
Definition SetGridBackgroundImage (fr : t) (row column : Z)
    : outcome (option (string * string)) :=
  let itemID := s32 (s32 (row * columnCount fr) + column) in
  match cells fr !! (row, column) with
  | Some _ =>
      match at_ (m_games_shared fr) itemID with
      | Some g =>
          Done (Some (pic_path g, "/game_data/" +:+ serial g +:+ "/pic1.png"))
      | None => BadIndex
      end
  | None => Done None
  end.

(** The cell of the table after the first [k] games were placed. *)
Definition placed (m_games_ : list GameInfo) (gamesPerRow k : Z) (rc : Z * Z)
    : option CellWidget :=
  let '(r, c) := rc in
  if (0 <=? r) && (0 <=? c) && (c <? gamesPerRow) && (r * gamesPerRow + c <? k)
  then make_widget <$> m_games_ !! Z.to_nat (r * gamesPerRow + c)
  else None.
End GameGridFrame.

(** ** Sample inputs

    A vertex stage that reads the user-data registers 2, 5 and 9, binds two
    buffers, one texel buffer and one image, and takes its instance offset
    from register 3. *)

Definition sample_decls : Decls :=
  {| NumScalarRegs := 104;
     sizeof_Buffer := 16;
     sizeof_Image := 32;
     sizeof_Sampler := 16;
     Buffer_GetSize := fun b => le_decode (take 4 (drop 8 b));
     Buffer_bool := fun b => negb (le_decode (take 6 b) =? 0);
     Sampler_bool := fun b => negb (le_decode (take 8 b) =? 0) |}.

Definition sample_user_data : list Z :=
  [0x10; 0x20; 0x30; 0x40; 0x00400000; 0x12340001; 0x60; 0x70;
   0x80; 0x90; 0xA0; 0xB0; 0xC0; 0xD0; 0xE0; 0xF0].

Definition sample_buffer (base offset : Z) (written : bool) : BufferResource.t :=
  {| BufferResource.sgpr_base := base;
     BufferResource.dword_offset := offset;
     BufferResource.used_types := 0;
     BufferResource.inline_cbuf := repeat 0 16;
     BufferResource.is_gds_buffer := false;
     BufferResource.is_instance_data := false;
     BufferResource.is_written := written |}.

(** A buffer entry whose descriptor was captured at analysis time. *)
Definition sample_inline_buffer : BufferResource.t :=
  {| BufferResource.sgpr_base := 104;
     BufferResource.dword_offset := 0;
     BufferResource.used_types := 0;
     BufferResource.inline_cbuf := [0; 0x10; 0; 0; 0; 0; 0; 0; 0; 1; 0; 0; 0; 0; 0; 0];
     BufferResource.is_gds_buffer := false;
     BufferResource.is_instance_data := false;
     BufferResource.is_written := false |}.

Definition sample_texture_buffer : TextureBufferResource.t :=
  {| TextureBufferResource.sgpr_base := 4;
     TextureBufferResource.dword_offset := 8;
     TextureBufferResource.nfmt := 7;
     TextureBufferResource.is_written := false |}.

Definition sample_image : ImageResource.t :=
  {| ImageResource.sgpr_base := 4;
     ImageResource.dword_offset := 16;
     ImageResource.type := 9;
     ImageResource.nfmt := 0;
     ImageResource.is_storage := false;
     ImageResource.is_depth := false;
     ImageResource.is_atomic := false;
     ImageResource.is_array := false |}.

Definition sample_sampler : SamplerResource.t :=
  {| SamplerResource.sgpr_base := 4;
     SamplerResource.dword_offset := 24;
     SamplerResource.inline_sampler := repeat 0 16;
     SamplerResource.associated_image := 0;
     SamplerResource.disable_aniso := 0 |}.

Definition sample_info : Info.t :=
  {| Info.ud_mask := {| UserDataMask.mask := 0x224 |};
     Info.vertex_offset_sgpr := -1;
     Info.instance_offset_sgpr := 3;
     Info.buffers := [sample_buffer 4 0 false; sample_buffer 4 4 true];
     Info.texture_buffers := [sample_texture_buffer];
     Info.images := [sample_image];
     Info.samplers := [];
     Info.user_data := sample_user_data |}.

Definition sample_push : PushData.t :=
  {| PushData.step0 := 1;
     PushData.step1 := 1;
     PushData.buf_offsets := repeat 0 32;
     PushData.ud_regs := repeat 0 16 |}.

Definition sample_memory : memory := fun a => a mod 256.

(** A flag array of four attributes: the second has components 0 and 2,
    the fourth all four. *)
Definition sample_flags : AttributeFlags.t :=
  {| AttributeFlags.flags := [0; 5; 0; 0x0F] |}.

(** A pixel stage that reads the registers 0 and 1 and binds one sampler. *)
Definition sample_info_ps : Info.t :=
  {| Info.ud_mask := {| UserDataMask.mask := 0x3 |};
     Info.vertex_offset_sgpr := -1;
     Info.instance_offset_sgpr := -1;
     Info.buffers := [];
     Info.texture_buffers := [];
     Info.images := [sample_image];
     Info.samplers := [sample_sampler];
     Info.user_data := map (fun w => w + 0x1000) sample_user_data |}.

(** The sample vertex stage with other upper bits in its pointer pair. *)
Definition sample_info_hi : Info.t :=
  {| Info.ud_mask := Info.ud_mask sample_info;
     Info.vertex_offset_sgpr := -1;
     Info.instance_offset_sgpr := 3;
     Info.buffers := Info.buffers sample_info;
     Info.texture_buffers := Info.texture_buffers sample_info;
     Info.images := Info.images sample_info;
     Info.samplers := [];
     Info.user_data := <[5%nat := 0xFFFF0001]> sample_user_data |}.

(** A window 500 wide with icons of 100: four games to a row, five games. *)
Definition sample_game (n : string) : GameGridFrame.GameInfo :=
  {| GameGridFrame.serial := n;
     GameGridFrame.name := ("Game " +:+ n)%string;
     GameGridFrame.pic_path := ("/games/" +:+ n +:+ "/sce_sys/pic1.png")%string |}.

Definition sample_frame : GameGridFrame.t :=
  {| GameGridFrame.m_games :=
       map sample_game ["CUSA00001"; "CUSA00002"; "CUSA00003"; "CUSA00004"; "CUSA00005"]%string;
     GameGridFrame.m_icon_size_grid := 100;
     GameGridFrame.icon_size := 100;
     GameGridFrame.windowWidth := 500;
     GameGridFrame.columnCount := 0;
     GameGridFrame.rowCount := 0;
     GameGridFrame.cells := ∅;
     GameGridFrame.m_games_shared := [] |}.

(** The same list in a window narrower than one cell. *)
Definition sample_narrow_frame : GameGridFrame.t :=
  {| GameGridFrame.m_games := GameGridFrame.m_games sample_frame;
     GameGridFrame.m_icon_size_grid := 100;
     GameGridFrame.icon_size := 100;
     GameGridFrame.windowWidth := 110;
     GameGridFrame.columnCount := 0;
     GameGridFrame.rowCount := 0;
     GameGridFrame.cells := ∅;
     GameGridFrame.m_games_shared := [] |}.

(** * Properties *)

(** ** Lists *)

Section ListFacts.

Lemma filter_drop_first (p q : Z -> bool) (l : list Z) i rest :
  List.filter p l = i :: rest ->
  List.NoDup l ->
  (forall j, In j l -> q j = p j && negb (j =? i)) ->
  List.filter q l = rest.
Proof.
  induction l as [| a l IH]; simpl; intros Hf Hnd Hq; [discriminate |].
  inversion Hnd as [| ? ? Hnot Hnd']; subst.
  destruct (p a) eqn:Hpa.
  - injection Hf as -> <-.
    rewrite (Hq i) by (left; reflexivity).
    rewrite Hpa, Z.eqb_refl. simpl.
    apply filter_ext_in. intros j Hj.
    rewrite Hq by (right; exact Hj).
    destruct (Z.eqb_spec j i) as [-> | _]; [contradiction |].
    apply andb_true_r.
  - rewrite (Hq a) by (left; reflexivity). rewrite Hpa. simpl.
    apply IH; auto.
Qed.

Lemma StronglySorted_filter {A} (R : A -> A -> Prop) (f : A -> bool) l :
  StronglySorted R l -> StronglySorted R (List.filter f l).
Proof.
  induction 1 as [| a l Hs IH Hall]; simpl; [constructor |].
  destruct (f a); [| exact IH].
  constructor; [exact IH |].
  rewrite List.Forall_forall in *. intros x Hx.
  apply filter_In in Hx. apply Hall, Hx.
Qed.

Lemma StronglySorted_seqZ m n : StronglySorted Z.lt (seqZ m n).
Proof.
  destruct (Z.le_gt_cases n 0) as [Hn | Hn].
  { rewrite seqZ_nil by lia. constructor. }
  rewrite <- (Z2Nat.id n) by lia.
  generalize (Z.to_nat n) as k. clear n Hn. intros k. revert m.
  induction k as [| k IH]; intros m.
  - rewrite seqZ_nil by lia. constructor.
  - rewrite seqZ_cons by lia.
    replace (Z.pred (Z.of_nat (S k))) with (Z.of_nat k) by lia.
    constructor; [apply IH |].
    rewrite List.Forall_forall. intros x Hx.
    apply list_elem_of_In, elem_of_seqZ in Hx. lia.
Qed.

(** In a strictly ascending list the number of elements below the [k]-th
    one is [k]. *)
Lemma sorted_rank (l : list Z) (k : nat) i :
  StronglySorted Z.lt l ->
  l !! k = Some i ->
  length (List.filter (fun j => j <? i) l) = k.
Proof.
  intros Hs. revert k. induction Hs as [| a l Hs IH Hall]; intros k Hk.
  - destruct k; discriminate.
  - rewrite List.Forall_forall in Hall. destruct k as [| k]; simpl in *.
    + injection Hk as ->. rewrite Z.ltb_irrefl.
      rewrite (filter_ext_in _ (fun _ => false)), filter_false; [reflexivity |].
      intros j Hj. apply Hall in Hj. apply Z.ltb_ge. lia.
    + assert (a < i) as Hai.
      { apply Hall, list_elem_of_In, list_elem_of_lookup. eauto. }
      apply Z.ltb_lt in Hai as ->. simpl. f_equal. apply IH, Hk.
Qed.

End ListFacts.

(** ** Words and their bits *)

Section Bits.

Lemma u32_is_u32 x : is_u32 (u32 x).
Proof. unfold is_u32, u32. apply Z.mod_pos_bound. lia. Qed.

Lemma u32_small x : is_u32 x -> u32 x = x.
Proof. unfold is_u32, u32. intros H. apply Z.mod_small. exact H. Qed.

Lemma u32_s32 x : u32 (s32 x) = u32 x.
Proof.
  unfold u32, s32.
  rewrite Zminus_mod_idemp_l.
  f_equal. lia.
Qed.

Lemma testbit_u32 x i :
  0 <= i -> Z.testbit (u32 x) i = (i <? 32) && Z.testbit x i.
Proof.
  intros Hi. unfold u32. destruct (Z.ltb_spec i 32) as [Hlt | Hge]; simpl.
  - apply Z.mod_pow2_bits_low. lia.
  - apply Z.mod_pow2_bits_high. lia.
Qed.

Lemma testbit_high x i : is_u32 x -> 32 <= i -> Z.testbit x i = false.
Proof.
  intros Hx Hi. rewrite <- (u32_small x Hx), testbit_u32 by lia.
  destruct (Z.ltb_spec i 32); [lia | reflexivity].
Qed.

Lemma set_bits_unfold x : set_bits x = List.filter (Z.testbit x) bit_positions.
Proof. reflexivity. Qed.

Lemma in_set_bits x i :
  In i (set_bits x) <-> (0 <= i < 32 /\ Z.testbit x i = true).
Proof.
  unfold set_bits, bit_positions. rewrite filter_In, <- list_elem_of_In, elem_of_seqZ.
  intuition lia.
Qed.

Lemma set_bits_sorted x : StronglySorted Z.lt (set_bits x).
Proof. apply StronglySorted_filter, StronglySorted_seqZ. Qed.

Lemma set_bits_NoDup x : List.NoDup (set_bits x).
Proof. apply List.NoDup_filter, NoDup_ListNoDup, NoDup_seqZ. Qed.

Lemma length_set_bits x : (length (set_bits x) <= 32)%nat.
Proof.
  unfold set_bits. etransitivity; [apply List.filter_length_le |].
  unfold bit_positions. rewrite length_seqZ. simpl. lia.
Qed.

Lemma popcount_from_filter n x i :
  popcount_from n x i
  = Z.of_nat (length (List.filter (Z.testbit x) (seqZ i (Z.of_nat n)))).
Proof.
  revert i. induction n as [| n IH]; intros i.
  - reflexivity.
  - rewrite seqZ_cons by lia.
    replace (Z.pred (Z.of_nat (S n))) with (Z.of_nat n) by lia.
    cbn [popcount_from List.filter]. rewrite IH.
    replace (Z.succ i) with (i + 1) by lia.
    destruct (Z.testbit x i); cbn [Z.b2z length]; lia.
Qed.

Lemma popcount_set_bits x : popcount x = Z.of_nat (length (set_bits x)).
Proof.
  unfold popcount, set_bits, bit_positions. rewrite popcount_from_filter.
  change (Z.of_nat 32) with 32. reflexivity.
Qed.

Lemma countr_zero_from_filter n x i :
  countr_zero_from n x i
  = hd (i + Z.of_nat n) (List.filter (Z.testbit x) (seqZ i (Z.of_nat n))).
Proof.
  revert i. induction n as [| n IH]; intros i.
  - rewrite seqZ_nil by lia. cbn. lia.
  - rewrite seqZ_cons by lia.
    replace (Z.pred (Z.of_nat (S n))) with (Z.of_nat n) by lia.
    cbn [countr_zero_from List.filter].
    destruct (Z.testbit x i); [reflexivity |].
    rewrite IH. replace (Z.succ i) with (i + 1) by lia.
    f_equal. lia.
Qed.

Lemma countr_zero_set_bits x : countr_zero x = hd 32 (set_bits x).
Proof.
  unfold countr_zero, set_bits, bit_positions. rewrite countr_zero_from_filter.
  change (Z.of_nat 32) with 32. reflexivity.
Qed.

Lemma set_bits_nil x : is_u32 x -> set_bits x = [] -> x = 0.
Proof.
  intros Hx Hnil. apply Z.bits_inj'. intros i Hi. rewrite Z.bits_0.
  destruct (Z.lt_ge_cases i 32) as [Hlt | Hge].
  - destruct (Z.testbit x i) eqn:Hb; [| reflexivity].
    assert (In i (set_bits x)) as Hin by (apply in_set_bits; split; [lia | exact Hb]).
    rewrite Hnil in Hin. destruct Hin.
  - apply testbit_high; assumption.
Qed.

Lemma set_bits_0 : set_bits 0 = [].
Proof. reflexivity. Qed.

Lemma shl_u32_1 i : 0 <= i < 32 -> shl_u32 1 i = Some (2 ^ i).
Proof.
  intros Hi. unfold shl_u32.
  destruct (Z.leb_spec 0 i); [| lia]. destruct (Z.ltb_spec i 32); [| lia].
  simpl. rewrite Z.shiftl_1_l. f_equal. apply u32_small.
  unfold is_u32. split; [lia |]. apply Z.pow_lt_mono_r; lia.
Qed.

Lemma testbit_clear x i j :
  0 <= i < 32 -> 0 <= j < 32 ->
  Z.testbit (Z.land x (u32 (Z.lnot (2 ^ i)))) j = Z.testbit x j && negb (j =? i).
Proof.
  intros Hi Hj.
  rewrite Z.land_spec, testbit_u32, Z.lnot_spec, Z.pow2_bits_eqb by lia.
  destruct (Z.ltb_spec j 32); [| lia]. cbn [andb].
  rewrite (Z.eqb_sym i j). reflexivity.
Qed.

(** [mask &= ~(1U << index)] removes the lowest set bit from the list. *)
Lemma set_bits_clear x i rest :
  set_bits x = i :: rest ->
  set_bits (Z.land x (u32 (Z.lnot (2 ^ i)))) = rest.
Proof.
  intros Hx.
  assert (0 <= i < 32) as Hi.
  { apply (in_set_bits x i). rewrite Hx. left. reflexivity. }
  rewrite set_bits_unfold in *.
  apply (filter_drop_first (Z.testbit x) _ bit_positions i rest Hx).
  - apply NoDup_ListNoDup, NoDup_seqZ.
  - intros j Hj. apply list_elem_of_In, elem_of_seqZ in Hj.
    apply testbit_clear; lia.
Qed.

Lemma is_u32_testbit x :
  0 <= x -> (forall i, 32 <= i -> Z.testbit x i = false) -> is_u32 x.
Proof.
  intros Hx Hhigh. replace x with (u32 x); [apply u32_is_u32 |].
  apply Z.bits_inj'. intros i Hi. rewrite testbit_u32 by exact Hi.
  destruct (Z.ltb_spec i 32); [reflexivity |]. symmetry. apply Hhigh. lia.
Qed.

Lemma land_is_u32 x y : is_u32 x -> 0 <= y -> is_u32 (Z.land x y).
Proof.
  intros Hx Hy. apply is_u32_testbit.
  - apply Z.land_nonneg. unfold is_u32 in Hx. lia.
  - intros i Hi. rewrite Z.land_spec, (testbit_high x i Hx Hi). reflexivity.
Qed.

End Bits.

(** ** The packing loop *)

Section Packing.

Lemma PushUd_loop_push_regs fuel info mask bnd push :
  is_u32 mask ->
  (length (set_bits mask) <= fuel)%nat ->
  Info.PushUd_loop fuel info mask bnd push = push_regs info (set_bits mask) bnd push.
Proof.
  revert mask bnd push. induction fuel as [| fuel IH]; intros mask bnd push Hm Hlen.
  - destruct (set_bits mask) eqn:Hs; [| simpl in Hlen; lia].
    apply set_bits_nil in Hs as ->; [reflexivity | exact Hm].
  - destruct (set_bits mask) as [| i rest] eqn:Hs.
    { apply set_bits_nil in Hs as ->; [reflexivity | exact Hm]. }
    assert (0 <= i < 32) as Hi.
    { apply (in_set_bits mask i). rewrite Hs. left. reflexivity. }
    assert (mask <> 0) as Hne.
    { intros ->. rewrite set_bits_0 in Hs. discriminate. }
    cbn [Info.PushUd_loop push_regs].
    apply Z.eqb_neq in Hne as ->.
    rewrite countr_zero_set_bits, Hs. cbn [hd].
    destruct ((Bindings.user_data bnd <? NumUserDataRegs) && (i <? NumUserDataRegs));
      [| reflexivity].
    rewrite shl_u32_1 by exact Hi. cbn [of_option rbind].
    destruct (Info.ud_at info i) as [v |]; [| reflexivity]. cbn [rbind].
    rewrite IH.
    + rewrite (set_bits_clear mask i rest Hs). reflexivity.
    + apply land_is_u32; [exact Hm |]. apply u32_is_u32.
    + rewrite (set_bits_clear mask i rest Hs). simpl in Hlen. lia.
Qed.

Lemma PushUd_push_regs info bnd push :
  is_u32 (UserDataMask.mask (Info.ud_mask info)) ->
  Info.PushUd info bnd push
  = push_regs info (set_bits (UserDataMask.mask (Info.ud_mask info))) bnd push.
Proof.
  intros Hm. unfold Info.PushUd. apply PushUd_loop_push_regs; [exact Hm |].
  apply length_set_bits.
Qed.

Lemma ud_at_lookup info i :
  0 <= i ->
  Info.ud_at info i = of_option OutOfBounds (Info.user_data info !! Z.to_nat i).
Proof.
  intros Hi. unfold Info.ud_at. destruct (Z.ltb_spec i 0); [lia | reflexivity].
Qed.

(** Within capacity the loop completes; it writes the registers of [regs]
    to consecutive slots from the counter on and nothing else. *)
Lemma push_regs_ok info regs : forall bnd push,
  (forall i, In i regs ->
     0 <= i < NumUserDataRegs /\ is_Some (Info.user_data info !! Z.to_nat i)) ->
  0 <= Bindings.user_data bnd ->
  Bindings.user_data bnd + Z.of_nat (length regs) <= NumUserDataRegs ->
  length (PushData.ud_regs push) = Z.to_nat NumUserDataRegs ->
  exists push',
    push_regs info regs bnd push
    = Ok ({| Bindings.unified := Bindings.unified bnd;
             Bindings.buffer := Bindings.buffer bnd;
             Bindings.user_data := Bindings.user_data bnd + Z.of_nat (length regs) |},
          push')
    /\ PushData.step0 push' = PushData.step0 push
    /\ PushData.step1 push' = PushData.step1 push
    /\ PushData.buf_offsets push' = PushData.buf_offsets push
    /\ length (PushData.ud_regs push') = length (PushData.ud_regs push)
    /\ (forall (k : nat) i, regs !! k = Some i ->
          PushData.ud_regs push' !! (Z.to_nat (Bindings.user_data bnd) + k)%nat
          = Info.user_data info !! Z.to_nat i)
    /\ (forall j : nat,
          (j < Z.to_nat (Bindings.user_data bnd)
           \/ Z.to_nat (Bindings.user_data bnd) + length regs <= j)%nat ->
          PushData.ud_regs push' !! j = PushData.ud_regs push !! j).
Proof.
  induction regs as [| i rest IH]; intros bnd push Hregs Hc Hcap Hlen.
  - exists push. cbn [push_regs length]. rewrite Z.add_0_r.
    destruct bnd. repeat split; try reflexivity.
    intros k j Hk. destruct k; discriminate.
  - cbn [length] in Hcap.
    destruct (Hregs i (or_introl eq_refl)) as [Hi [v Hv]].
    cbn [push_regs].
    destruct (Z.ltb_spec (Bindings.user_data bnd) NumUserDataRegs); [| lia].
    destruct (Z.ltb_spec i NumUserDataRegs); [| lia].
    cbn [andb]. rewrite ud_at_lookup, Hv by lia. cbn [of_option rbind].
    rewrite u32_small by (unfold is_u32, NumUserDataRegs in *; lia).
    set (bnd1 := {| Bindings.unified := Bindings.unified bnd;
                    Bindings.buffer := Bindings.buffer bnd;
                    Bindings.user_data := Bindings.user_data bnd + 1 |}).
    set (push1 := PushData.set_ud_reg push (Bindings.user_data bnd) v).
    destruct (IH bnd1 push1) as (push' & Hrun & Hs0 & Hs1 & Hbo & Hl & Hw & Hframe).
    + intros j Hj. apply Hregs. right. exact Hj.
    + subst bnd1. simpl. lia.
    + subst bnd1. simpl. lia.
    + subst push1. simpl. rewrite length_insert. exact Hlen.
    + exists push'. rewrite Hrun. subst bnd1 push1. simpl in *.
      rewrite length_insert in Hl.
      repeat split; try assumption.
      * do 3 f_equal. lia.
      * intros k j Hk. destruct k as [| k]; simpl in Hk.
        -- injection Hk as ->. rewrite Nat.add_0_r, Hframe by lia.
           rewrite list_lookup_insert_eq, Hv; [reflexivity |].
           rewrite Hlen. unfold NumUserDataRegs in *. lia.
        -- rewrite <- (Hw k j Hk). f_equal. lia.
      * intros j Hj. rewrite Hframe by lia.
        apply list_lookup_insert_ne. lia.
Qed.

(** Without the capacity precondition: the loop stops at the assertion
    exactly when a register at or above the range is met, or a register is
    still to be written with the counter at the capacity. *)
Lemma push_regs_assert info regs : forall bnd push,
  (forall i, In i regs -> 0 <= i) ->
  (Z.to_nat NumUserDataRegs <= length (Info.user_data info))%nat ->
  0 <= Bindings.user_data bnd ->
  (push_regs info regs bnd push = Err AssertFailed
   <-> ((exists i, In i regs /\ NumUserDataRegs <= i)
        \/ (regs <> [] /\ NumUserDataRegs < Bindings.user_data bnd + Z.of_nat (length regs))))
  /\ (forall f, push_regs info regs bnd push = Err f -> f = AssertFailed).
Proof.
  induction regs as [| i rest IH]; intros bnd push Hpos Hud Hc.
  - cbn [push_regs]. split; [| discriminate]. split; [discriminate |].
    intros [(i & [] & _) | [Hne _]]. congruence.
  - cbn [push_regs length].
    assert (0 <= i) as Hi by (apply Hpos; left; reflexivity).
    destruct (Z.ltb_spec (Bindings.user_data bnd) NumUserDataRegs) as [Hlt | Hge];
      cbn [andb].
    2:{ split; [| congruence]. split; [| reflexivity]. intros _. right.
        split; [discriminate | lia]. }
    destruct (Z.ltb_spec i NumUserDataRegs) as [Hil | Hig].
    2:{ split; [| congruence]. split; [| reflexivity]. intros _. left.
        exists i. split; [left; reflexivity | exact Hig]. }
    rewrite ud_at_lookup by lia.
    destruct (lookup_lt_is_Some_2 (Info.user_data info) (Z.to_nat i)) as [v Hv].
    { unfold NumUserDataRegs in *. lia. }
    rewrite Hv. cbn [of_option rbind].
    rewrite u32_small by (unfold is_u32, NumUserDataRegs in *; lia).
    set (bnd1 := {| Bindings.unified := Bindings.unified bnd;
                    Bindings.buffer := Bindings.buffer bnd;
                    Bindings.user_data := Bindings.user_data bnd + 1 |}).
    destruct (IH bnd1 (PushData.set_ud_reg push (Bindings.user_data bnd) v))
      as [Hiff Honly].
    + intros j Hj. apply Hpos. right. exact Hj.
    + exact Hud.
    + subst bnd1. simpl. lia.
    + split; [| exact Honly]. rewrite Hiff. subst bnd1. cbn [Bindings.user_data].
      split.
      * intros [(j & Hj & Hjr) | [Hne Hcap]].
        -- left. exists j. split; [right; exact Hj | exact Hjr].
        -- right. split; [discriminate | lia].
      * intros [(j & [-> | Hj] & Hjr) | [_ Hcap]].
        -- lia.
        -- left. exists j. split; assumption.
        -- destruct rest as [| r rest'].
           ++ simpl in Hcap. lia.
           ++ right. split; [discriminate |]. cbn [length] in *. lia.
Qed.

End Packing.

(** ** The user-data register map *)

Section RegisterMap.

Lemma set_bits_all x i :
  is_u32 x -> (In i (set_bits x) <-> (0 <= i /\ Z.testbit x i = true)).
Proof.
  intros Hx. rewrite in_set_bits. split; [intuition lia |].
  intros [Hi Hb]. split; [| exact Hb]. split; [exact Hi |].
  destruct (Z.lt_ge_cases i 32) as [| Hge]; [assumption |].
  rewrite (testbit_high x i Hx Hge) in Hb. discriminate.
Qed.

Lemma shl_int_1 i : 0 <= i < 32 -> shl_int 1 i = Some (s32 (2 ^ i)).
Proof.
  intros Hi. unfold shl_int.
  destruct (Z.leb_spec 0 i); [| lia]. destruct (Z.ltb_spec i 32); [| lia].
  simpl. rewrite Z.shiftl_1_l. reflexivity.
Qed.

Lemma shl_int_None i : ~ 0 <= i < 32 -> shl_int 1 i = None.
Proof.
  intros Hi. unfold shl_int.
  destruct (Z.leb_spec 0 i); destruct (Z.ltb_spec i 32); try reflexivity. lia.
Qed.

Lemma pow2_is_u32 i : 0 <= i < 32 -> is_u32 (2 ^ i).
Proof.
  intros Hi. unfold is_u32. split; [lia |]. apply Z.pow_lt_mono_r; lia.
Qed.

(** [Set] ors in the bit of the register. *)
Lemma Set_spec m reg :
  0 <= reg < 32 ->
  UserDataMask.Set_ m reg = Ok {| UserDataMask.mask := Z.lor (UserDataMask.mask m) (2 ^ reg) |}.
Proof.
  intros Hr. unfold UserDataMask.Set_. rewrite shl_int_1 by exact Hr.
  cbn [of_option rbind]. rewrite u32_s32, u32_small by (apply pow2_is_u32; exact Hr).
  reflexivity.
Qed.

Lemma Set_is_u32 m reg m' :
  is_u32 (UserDataMask.mask m) ->
  UserDataMask.Set_ m reg = Ok m' ->
  is_u32 (UserDataMask.mask m').
Proof.
  intros Hm. unfold UserDataMask.Set_.
  destruct (shl_int 1 reg) as [b |]; cbn [of_option rbind]; [| discriminate].
  intros [= <-]. cbn [UserDataMask.mask].
  pose proof (u32_is_u32 b) as Hb.
  apply is_u32_testbit.
  - apply Z.lor_nonneg. unfold is_u32 in *. lia.
  - intros i Hi. rewrite Z.lor_spec, !testbit_high; auto.
Qed.

Lemma Set_comm m a b :
  (m1 <- UserDataMask.Set_ m a ;; UserDataMask.Set_ m1 b)
  = (m1 <- UserDataMask.Set_ m b ;; UserDataMask.Set_ m1 a).
Proof.
  unfold UserDataMask.Set_.
  destruct (shl_int 1 a) as [x |], (shl_int 1 b) as [y |]; cbn; try reflexivity.
  rewrite <- !Z.lor_assoc, (Z.lor_comm (u32 x)). reflexivity.
Qed.

(** The mask does not remember the order of the [Set] calls. *)
Lemma SetAll_Permutation regs regs' :
  Permutation regs regs' ->
  forall m, UserDataMask.SetAll m regs = UserDataMask.SetAll m regs'.
Proof.
  induction 1 as [| x l l' _ IH | x y l | l l' l'' _ IH1 _ IH2]; intros m.
  - reflexivity.
  - cbn [UserDataMask.SetAll]. destruct (UserDataMask.Set_ m x); cbn [rbind]; auto.
  - cbn [UserDataMask.SetAll].
    change (UserDataMask.SetAll m (y :: x :: l))
      with (m1 <- UserDataMask.Set_ m y ;; m2 <- UserDataMask.Set_ m1 x ;;
            UserDataMask.SetAll m2 l).
    pose proof (Set_comm m y x) as Hc.
    destruct (UserDataMask.Set_ m y) as [my |], (UserDataMask.Set_ m x) as [mx |];
      cbn [rbind] in *.
    + rewrite Hc. reflexivity.
    + rewrite Hc. reflexivity.
    + rewrite <- Hc. reflexivity.
    + congruence.
  - rewrite IH1. apply IH2.
Qed.

Lemma SetAll_bits regs : forall m,
  (forall r, In r regs -> 0 <= r < 32) ->
  exists m',
    UserDataMask.SetAll m regs = Ok m'
    /\ forall j, 0 <= j ->
         Z.testbit (UserDataMask.mask m') j
         = Z.testbit (UserDataMask.mask m) j || existsb (Z.eqb j) regs.
Proof.
  induction regs as [| r rest IH]; intros m Hr.
  - exists m. split; [reflexivity |]. intros j _. cbn. rewrite orb_false_r. reflexivity.
  - cbn [UserDataMask.SetAll]. rewrite Set_spec by (apply Hr; left; reflexivity).
    cbn [rbind].
    destruct (IH {| UserDataMask.mask := Z.lor (UserDataMask.mask m) (2 ^ r) |})
      as (m' & Hrun & Hbits).
    { intros x Hx. apply Hr. right. exact Hx. }
    exists m'. split; [exact Hrun |]. intros j Hj.
    rewrite Hbits by exact Hj. cbn [UserDataMask.mask existsb].
    assert (0 <= r < 32) as Hr0 by (apply Hr; left; reflexivity).
    rewrite Z.lor_spec, Z.pow2_bits_eqb by lia.
    rewrite (Z.eqb_sym r j), orb_assoc. reflexivity.
Qed.

Lemma filter_filter_and {A} (f g : A -> bool) l :
  List.filter f (List.filter g l) = List.filter (fun x => g x && f x) l.
Proof.
  induction l as [| a l IH]; [reflexivity |]. simpl.
  destruct (g a); simpl; [destruct (f a) |]; rewrite ?IH; reflexivity.
Qed.

(** [Index] counts the set bits below the register. *)
Lemma Index_spec m i :
  0 <= i < 32 ->
  UserDataMask.Index m i = Ok (popcount (Z.land (UserDataMask.mask m) (2 ^ i - 1)))
  /\ popcount (Z.land (UserDataMask.mask m) (2 ^ i - 1))
     = Z.of_nat (length (List.filter (fun j => j <? i) (set_bits (UserDataMask.mask m)))).
Proof.
  intros Hi. split.
  - unfold UserDataMask.Index. rewrite shl_int_1 by exact Hi.
    cbn [of_option rbind]. rewrite u32_s32.
    replace (u32 (s32 (2 ^ i) - 1)) with (2 ^ i - 1); [reflexivity |].
    unfold u32, s32.
    replace ((2 ^ i + 2 ^ 31) mod 2 ^ 32 - 2 ^ 31 - 1)
      with ((2 ^ i + 2 ^ 31) mod 2 ^ 32 - (2 ^ 31 + 1)) by lia.
    rewrite Zminus_mod_idemp_l.
    replace (2 ^ i + 2 ^ 31 - (2 ^ 31 + 1)) with (2 ^ i - 1) by lia.
    symmetry. apply Z.mod_small.
    pose proof (pow2_is_u32 i Hi) as Hp. unfold is_u32 in Hp. lia.
  - rewrite popcount_set_bits. f_equal. f_equal.
    unfold set_bits. rewrite filter_filter_and.
    apply filter_ext_in. intros j Hj.
    apply list_elem_of_In, elem_of_seqZ in Hj.
    rewrite Z.land_spec. f_equal.
    rewrite Z.sub_1_r, <- Z.ones_equiv.
    destruct (Z.ltb_spec j i).
    + apply Z.ones_spec_low. lia.
    + apply Z.ones_spec_high. lia.
Qed.

Lemma Index_rank m (k : nat) i :
  set_bits (UserDataMask.mask m) !! k = Some i ->
  UserDataMask.Index m i = Ok (Z.of_nat k).
Proof.
  intros Hk.
  assert (0 <= i < 32) as Hi.
  { apply (in_set_bits (UserDataMask.mask m) i), list_elem_of_In, list_elem_of_lookup.
    eauto. }
  destruct (Index_spec m i Hi) as [-> ->].
  rewrite (sorted_rank _ k i (set_bits_sorted _) Hk). reflexivity.
Qed.

End RegisterMap.

(** ** Reading descriptors *)

Section Resolver.

Lemma length_span_bytes ws : length (span_bytes ws) = (4 * length ws)%nat.
Proof.
  induction ws as [| w ws IH]; [reflexivity |].
  cbn [span_bytes flat_map]. rewrite List.length_app. fold (span_bytes ws).
  rewrite IH. cbn [word_bytes length]. lia.
Qed.

Lemma drop_span_bytes (k : nat) : forall ws,
  drop (4 * k) (span_bytes ws) = span_bytes (drop k ws).
Proof.
  induction k as [| k IH]; intros ws; [reflexivity |].
  destruct ws as [| w ws].
  - replace (4 * S k)%nat with (S (4 * k + 3)) by lia. reflexivity.
  - replace (4 * S k)%nat with (S (S (S (S (4 * k))))) by lia.
    cbn [span_bytes flat_map word_bytes app drop]. apply IH.
Qed.

Lemma take_span_bytes (n : nat) : forall ws,
  take (4 * n) (span_bytes ws) = span_bytes (take n ws).
Proof.
  induction n as [| n IH]; intros ws; [reflexivity |].
  destruct ws as [| w ws].
  - replace (4 * S n)%nat with (S (4 * n + 3)) by lia. reflexivity.
  - replace (4 * S n)%nat with (S (S (S (S (4 * n))))) by lia.
    cbn [span_bytes flat_map word_bytes app take]. do 4 f_equal. apply IH.
Qed.

Lemma le_decode_word w : is_u32 w -> le_decode (word_bytes w) = w.
Proof.
  unfold is_u32, le_decode, word_bytes. intros Hw. cbn [fold_right].
  change (2 ^ 8) with 256. change (2 ^ 16) with (256 * 256).
  change (2 ^ 24) with (256 * 256 * 256).
  change (2 ^ 32) with (256 * 256 * 256 * 256) in Hw.
  rewrite <- !Z.div_div by lia.
  Z.div_mod_to_equations. lia.
Qed.

Lemma le_decode_cons b bs : le_decode (b :: bs) = b + 256 * le_decode bs.
Proof. reflexivity. Qed.

Lemma le_decode_app bs cs :
  le_decode (bs ++ cs) = le_decode bs + 256 ^ Z.of_nat (length bs) * le_decode cs.
Proof.
  induction bs as [| b bs IH].
  - change (le_decode []) with 0. cbn [app length]. rewrite Z.pow_0_r. lia.
  - cbn [app length]. rewrite !le_decode_cons, IH.
    rewrite Nat2Z.inj_succ, Z.pow_succ_r by lia. lia.
Qed.

Lemma le_decode_pair lo hi :
  is_u32 lo -> is_u32 hi ->
  le_decode (word_bytes lo ++ word_bytes hi) = lo + 2 ^ 32 * hi.
Proof.
  intros Hlo Hhi. rewrite le_decode_app, !le_decode_word by assumption.
  reflexivity.
Qed.

(** The eight bytes at a register are the register and its successor. *)
Lemma load_pair ud mem (i : nat) lo hi :
  ud !! i = Some lo ->
  ud !! S i = Some hi ->
  load ud mem (UdPtr (4 * Z.of_nat i)) 8
  = ([Load (UdPtr (4 * Z.of_nat i)) 8], Ok (word_bytes lo ++ word_bytes hi)).
Proof.
  intros Hlo Hhi. unfold load.
  pose proof (lookup_lt_Some _ _ _ Hhi) as Hlen.
  destruct (Z.leb_spec 0 (4 * Z.of_nat i)); [| lia].
  destruct (Z.leb_spec (4 * Z.of_nat i + 8) (4 * Z.of_nat (length ud))); [| lia].
  cbn [andb]. f_equal. f_equal.
  replace (Z.to_nat (4 * Z.of_nat i)) with (4 * i)%nat by lia.
  rewrite drop_span_bytes.
  rewrite (drop_S _ _ _ Hlo), (drop_S _ _ _ Hhi).
  reflexivity.
Qed.

Lemma load_log ud mem p len : fst (load ud mem p len) = [Load p len].
Proof.
  unfold load. destruct p as [off | a]; [| reflexivity].
  destruct ((0 <=? off) && _); reflexivity.
Qed.

Lemma tbind_log {A B} (m : traced A) (k : A -> traced B) :
  fst (tbind m k)
  = fst m ++ match snd m with Ok a => fst (k a) | Err _ => [] end.
Proof.
  destruct m as [l [a | f]]; cbn [tbind fst snd].
  - destruct (k a). reflexivity.
  - rewrite app_nil_r. reflexivity.
Qed.

Lemma ReadUd_sentinel d info mem sz o :
  Info.ReadUd d info mem sz (NumScalarRegs d) o
  = load (Info.user_data info) mem (UdPtr (4 * o)) sz.
Proof.
  unfold Info.ReadUd. rewrite Z.eqb_refl. cbn [negb tret tbind ptr_add].
  rewrite Z.add_0_l. destruct (load _ _ _ _). reflexivity.
Qed.

Lemma ReadUd_log_nonempty d info mem sz p o : fst (Info.ReadUd d info mem sz p o) <> [].
Proof.
  destruct (Z.eqb_spec p (NumScalarRegs d)) as [-> | Hne].
  - rewrite ReadUd_sentinel, load_log. discriminate.
  - unfold Info.ReadUd. apply Z.eqb_neq in Hne as ->. cbn [negb].
    rewrite !tbind_log, load_log. discriminate.
Qed.

End Resolver.

(** ** The constant block keeps its shape *)

Section Block.

Lemma set_ud_reg_wf p i v : PushData.wf p -> PushData.wf (PushData.set_ud_reg p i v).
Proof.
  unfold PushData.wf, PushData.set_ud_reg. cbn [PushData.buf_offsets PushData.ud_regs].
  rewrite length_insert. tauto.
Qed.

Lemma PushUd_loop_wf fuel info : forall mask bnd p bnd' p',
  PushData.wf p ->
  Info.PushUd_loop fuel info mask bnd p = Ok (bnd', p') ->
  PushData.wf p'.
Proof.
  induction fuel as [| fuel IH]; intros mask bnd p bnd' p' Hwf; cbn [Info.PushUd_loop].
  - destruct (mask =? 0); [| discriminate]. intros [= _ <-]. exact Hwf.
  - destruct (mask =? 0); [intros [= _ <-]; exact Hwf |].
    destruct (_ && _); [| discriminate].
    destruct (shl_u32 1 (countr_zero mask)); cbn [of_option rbind]; [| discriminate].
    destruct (Info.ud_at info (countr_zero mask)); cbn [rbind]; [| discriminate].
    apply IH, set_ud_reg_wf, Hwf.
Qed.

Lemma length_word_bytes w : length (word_bytes w) = 4%nat.
Proof. reflexivity. Qed.

End Block.

(** * Specification properties *)

(** C10. [IsStorage] classifies a buffer as a storage buffer exactly when
    the size of its descriptor exceeds [MaxUboSize] = 65536 bytes, or the
    entry is written, or it is a GDS buffer; a read-only buffer outside GDS
    of at most 65536 bytes is not a storage buffer. *)
Theorem IsStorage_iff (d : Decls) (r : BufferResource.t) (buffer : bytes) :
  MaxUboSize = 65536
  /\ (BufferResource.IsStorage d r buffer = true
      <-> (MaxUboSize < Buffer_GetSize d buffer
           \/ BufferResource.is_written r = true
           \/ BufferResource.is_gds_buffer r = true))
  /\ (BufferResource.is_written r = false ->
      BufferResource.is_gds_buffer r = false ->
      Buffer_GetSize d buffer <= 65536 ->
      BufferResource.IsStorage d r buffer = false).
Proof.
  unfold BufferResource.IsStorage, MaxUboSize.
  split; [reflexivity |]. split.
  - rewrite !orb_true_iff, Z.ltb_lt. tauto.
  - intros -> -> Hsz. rewrite !orb_false_r. apply Z.ltb_ge. exact Hsz.
Qed.

Lemma IsStorage_iff_witness :
  BufferResource.IsStorage sample_decls (sample_buffer 4 0 false)
    (BufferResource.inline_cbuf sample_inline_buffer) = false.
Proof.
  destruct (IsStorage_iff sample_decls (sample_buffer 4 0 false)
              (BufferResource.inline_cbuf sample_inline_buffer)) as (_ & _ & H).
  apply H; [reflexivity | reflexivity | vm_compute; discriminate].
Defined.

(** C9. The per-draw constant block has one layout: [step0] in bytes 0-3,
    [step1] in bytes 4-7, the 32 one-byte binding offsets from byte 8, the
    16 compacted 32-bit register words from byte 40; 104 bytes in all, which
    is within the 128 bytes a host guarantees.  Every block value takes
    exactly that many bytes, and neither [AddOffset] nor [PushUd] changes the
    length of an array of the block, however many entries they fill. *)
Theorem PushData_layout_fixed :
  PushData.members
  = [ (PushData.m_step0, PushData.U32); (PushData.m_step1, PushData.U32);
      (PushData.m_buf_offsets, PushData.Array PushData.U8 32);
      (PushData.m_ud_regs, PushData.Array PushData.U32 16) ]
  /\ PushData.layout
     = [ (PushData.m_step0, 0, 4); (PushData.m_step1, 4, 4);
         (PushData.m_buf_offsets, 8, 32); (PushData.m_ud_regs, 40, 64) ]
  /\ PushData.size = 104
  /\ PushData.size <= 128
  /\ (forall p, PushData.wf p -> Z.of_nat (length (PushData.repr p)) = PushData.size)
  /\ (forall p binding offset p',
        PushData.wf p -> PushData.AddOffset p binding offset = Ok p' -> PushData.wf p')
  /\ (forall info bnd p bnd' p',
        PushData.wf p -> Info.PushUd info bnd p = Ok (bnd', p') -> PushData.wf p').
Proof.
  split; [reflexivity |].
  split; [reflexivity |]. split; [reflexivity |]. split; [discriminate |].
  split; [| split].
  - intros p [Hbo Hud]. unfold PushData.repr.
    rewrite !List.length_app, !length_word_bytes, length_span_bytes, Hbo, Hud.
    reflexivity.
  - intros p binding offset p' [Hbo Hud]. unfold PushData.AddOffset.
    destruct (_ && _); [| discriminate]. intros [= <-].
    unfold PushData.wf. cbn [PushData.buf_offsets PushData.ud_regs].
    rewrite length_insert. tauto.
  - intros info bnd p bnd' p' Hwf. unfold Info.PushUd. apply PushUd_loop_wf, Hwf.
Qed.

Lemma PushData_layout_fixed_witness :
  Z.of_nat (length (PushData.repr sample_push)) = PushData.size.
Proof.
  destruct PushData_layout_fixed as (_ & _ & _ & _ & H & _).
  apply H. split; reflexivity.
Defined.

(** C8. [GetDrawOffsets] gives, for the vertex and for the instance offset
    register alike, 0 when the field is unset (-1) and the user-data
    register at the index otherwise; with index 3 and 0x40 in register 3 the
    offset is 0x40.  The method is const: it is a function of the record
    and returns nothing but the pair. *)
Theorem GetDrawOffsets_spec (info : Info.t) :
  (Info.vertex_offset_sgpr info = -1 ->
   Info.instance_offset_sgpr info = -1 ->
   Info.GetDrawOffsets info = Ok (0, 0))
  /\ (forall v,
        Info.vertex_offset_sgpr info <> -1 ->
        0 <= Info.vertex_offset_sgpr info ->
        Info.user_data info !! Z.to_nat (Info.vertex_offset_sgpr info) = Some v ->
        Info.instance_offset_sgpr info = -1 ->
        Info.GetDrawOffsets info = Ok (v, 0))
  /\ (forall i,
        Info.vertex_offset_sgpr info = -1 ->
        Info.instance_offset_sgpr info <> -1 ->
        0 <= Info.instance_offset_sgpr info ->
        Info.user_data info !! Z.to_nat (Info.instance_offset_sgpr info) = Some i ->
        Info.GetDrawOffsets info = Ok (0, i))
  /\ (forall v i,
        Info.vertex_offset_sgpr info <> -1 ->
        0 <= Info.vertex_offset_sgpr info ->
        Info.user_data info !! Z.to_nat (Info.vertex_offset_sgpr info) = Some v ->
        Info.instance_offset_sgpr info <> -1 ->
        0 <= Info.instance_offset_sgpr info ->
        Info.user_data info !! Z.to_nat (Info.instance_offset_sgpr info) = Some i ->
        Info.GetDrawOffsets info = Ok (v, i))
  /\ (Info.vertex_offset_sgpr info = 3 ->
      Info.user_data info !! 3%nat = Some 0x40 ->
      Info.instance_offset_sgpr info = -1 ->
      Info.GetDrawOffsets info = Ok (0x40, 0)).
Proof.
  unfold Info.GetDrawOffsets.
  repeat split.
  - intros -> ->. reflexivity.
  - intros v Hv Hv0 Hlv ->. apply Z.eqb_neq in Hv as ->.
    rewrite Z.eqb_refl. cbn [negb].
    rewrite ud_at_lookup, Hlv by exact Hv0. reflexivity.
  - intros i -> Hi Hi0 Hli. apply Z.eqb_neq in Hi as ->.
    rewrite Z.eqb_refl. cbn [negb rbind].
    rewrite ud_at_lookup, Hli by exact Hi0. reflexivity.
  - intros v i Hv Hv0 Hlv Hi Hi0 Hli.
    apply Z.eqb_neq in Hv as ->. apply Z.eqb_neq in Hi as ->. cbn [negb].
    rewrite !ud_at_lookup, Hlv, Hli by assumption. reflexivity.
  - intros -> Hl ->. rewrite Z.eqb_refl. change (3 =? -1) with false. cbn [negb].
    rewrite ud_at_lookup by lia.
    change (Z.to_nat 3) with 3%nat. rewrite Hl. reflexivity.
Qed.

Lemma GetDrawOffsets_spec_witness : Info.GetDrawOffsets sample_info = Ok (0, 0x40).
Proof.
  destruct (GetDrawOffsets_spec sample_info) as (_ & _ & H & _).
  apply H; [reflexivity | discriminate | discriminate | reflexivity].
Defined.

(** C1. [AddBindings] adds (buffers + texel buffers) to the buffer counter,
    (that sum + images + samplers) to the unified counter and the number of
    set bits of the register mask to the user-data counter, for every
    record and every accumulator; the counters are 32-bit, so the additions
    are those of [u32] and are exact whenever the sum fits.  A stage with 2
    buffers, 1 texel buffer, 1 image, no sampler and 3 registers in its mask
    takes the zeroed accumulator to buffer 3, unified 4, user-data 3. *)
Theorem AddBindings_counts (info : Info.t) (bnd : Bindings.t) :
  let nbuf := Z.of_nat (length (Info.buffers info))
              + Z.of_nat (length (Info.texture_buffers info)) in
  let nuni := nbuf + Z.of_nat (length (Info.images info))
              + Z.of_nat (length (Info.samplers info)) in
  let nreg := Z.of_nat (length (set_bits (UserDataMask.mask (Info.ud_mask info)))) in
  UserDataMask.NumRegs (Info.ud_mask info) = nreg
  /\ Info.AddBindings info bnd
     = {| Bindings.unified := u32 (Bindings.unified bnd + nuni);
          Bindings.buffer := u32 (Bindings.buffer bnd + nbuf);
          Bindings.user_data := u32 (Bindings.user_data bnd + nreg) |}
  /\ (is_u32 (Bindings.unified bnd + nuni) ->
      is_u32 (Bindings.buffer bnd + nbuf) ->
      is_u32 (Bindings.user_data bnd + nreg) ->
      Info.AddBindings info bnd
      = {| Bindings.unified := Bindings.unified bnd + nuni;
           Bindings.buffer := Bindings.buffer bnd + nbuf;
           Bindings.user_data := Bindings.user_data bnd + nreg |})
  /\ (bnd = Bindings.zero ->
      length (Info.buffers info) = 2%nat ->
      length (Info.texture_buffers info) = 1%nat ->
      length (Info.images info) = 1%nat ->
      length (Info.samplers info) = 0%nat ->
      nreg = 3 ->
      Info.AddBindings info bnd
      = {| Bindings.unified := 4; Bindings.buffer := 3; Bindings.user_data := 3 |}).
Proof.
  intros nbuf nuni nreg.
  assert (UserDataMask.NumRegs (Info.ud_mask info) = nreg) as Hn.
  { unfold UserDataMask.NumRegs. apply popcount_set_bits. }
  assert (Info.AddBindings info bnd
          = {| Bindings.unified := u32 (Bindings.unified bnd + nuni);
               Bindings.buffer := u32 (Bindings.buffer bnd + nbuf);
               Bindings.user_data := u32 (Bindings.user_data bnd + nreg) |}) as Hadd.
  { unfold Info.AddBindings. rewrite Hn. reflexivity. }
  repeat split; try assumption.
  - intros Hu Hb Hr. rewrite Hadd, !u32_small by assumption. reflexivity.
  - intros -> Hb Ht Hi Hs Hr. rewrite Hadd. subst nuni nbuf.
    rewrite Hb, Ht, Hi, Hs, Hr. vm_compute. reflexivity.
Qed.

Lemma AddBindings_counts_witness :
  Info.AddBindings sample_info Bindings.zero
  = {| Bindings.unified := 4; Bindings.buffer := 3; Bindings.user_data := 3 |}.
Proof.
  destruct (AddBindings_counts sample_info Bindings.zero) as (_ & _ & _ & H).
  apply H; reflexivity.
Defined.

(** The scenario as the specification words it, with unified slot 5, does
    not hold: the sample stage has the counts of the scenario and ends at
    unified slot 4. *)
Lemma AddBindings_scenario_counterexample :
  ~ (forall info : Info.t,
       length (Info.buffers info) = 2%nat ->
       length (Info.texture_buffers info) = 1%nat ->
       length (Info.images info) = 1%nat ->
       length (Info.samplers info) = 0%nat ->
       UserDataMask.NumRegs (Info.ud_mask info) = 3 ->
       Info.AddBindings info Bindings.zero
       = {| Bindings.unified := 5; Bindings.buffer := 3; Bindings.user_data := 3 |}).
Proof.
  intros H. specialize (H sample_info eq_refl eq_refl eq_refl eq_refl eq_refl).
  vm_compute in H. discriminate H.
Qed.

(** C5. A buffer entry, and a sampler entry, that carries an inline
    descriptor resolves to that descriptor, unchanged, without one read of
    the user-data registers or of memory; [ReadUd] runs only for an entry
    without an inline descriptor, and then [GetSharp] is that [ReadUd]. *)
Theorem GetSharp_inline (d : Decls) (info : Info.t) (mem : memory) :
  (forall r : BufferResource.t,
     Buffer_bool d (BufferResource.inline_cbuf r) = true ->
     BufferResource_GetSharp d r info mem = ([], Ok (BufferResource.inline_cbuf r)))
  /\ (forall r : SamplerResource.t,
        Sampler_bool d (SamplerResource.inline_sampler r) = true ->
        SamplerResource_GetSharp d r info mem = ([], Ok (SamplerResource.inline_sampler r)))
  /\ (forall r : BufferResource.t,
        Buffer_bool d (BufferResource.inline_cbuf r) = false ->
        BufferResource_GetSharp d r info mem
        = Info.ReadUd d info mem (sizeof_Buffer d)
            (BufferResource.sgpr_base r) (BufferResource.dword_offset r))
  /\ (forall r : SamplerResource.t,
        Sampler_bool d (SamplerResource.inline_sampler r) = false ->
        SamplerResource_GetSharp d r info mem
        = Info.ReadUd d info mem (sizeof_Sampler d)
            (SamplerResource.sgpr_base r) (SamplerResource.dword_offset r))
  /\ (forall r : BufferResource.t,
        fst (BufferResource_GetSharp d r info mem) <> [] ->
        Buffer_bool d (BufferResource.inline_cbuf r) = false)
  /\ (forall r : SamplerResource.t,
        fst (SamplerResource_GetSharp d r info mem) <> [] ->
        Sampler_bool d (SamplerResource.inline_sampler r) = false).
Proof.
  unfold BufferResource_GetSharp, SamplerResource_GetSharp.
  repeat split; intros r.
  - intros ->. reflexivity.
  - intros ->. reflexivity.
  - intros ->. reflexivity.
  - intros ->. reflexivity.
  - destruct (Buffer_bool d _); [| reflexivity]. intros H. exfalso. apply H. reflexivity.
  - destruct (Sampler_bool d _); [| reflexivity]. intros H. exfalso. apply H. reflexivity.
Qed.

Lemma GetSharp_inline_witness :
  BufferResource_GetSharp sample_decls sample_inline_buffer sample_info sample_memory
  = ([], Ok (BufferResource.inline_cbuf sample_inline_buffer)).
Proof.
  destruct (GetSharp_inline sample_decls sample_info sample_memory) as (H & _).
  apply H. reflexivity.
Defined.

(** C4. With the register index at the sentinel [NumScalarRegs], [ReadUd]
    loads no pointer: its one read is of the captured user-data words, from
    the word at [dword_offset] on, whatever the memory holds; so the entries
    of every kind whose [sgpr_base] is the sentinel resolve without an
    access to memory. *)
Theorem ReadUd_sentinel_inline (d : Decls) (info : Info.t) (mem : memory)
    (sizeof_T dword_offset : Z) :
  let r := Info.ReadUd d info mem sizeof_T (NumScalarRegs d) dword_offset in
  fst r = [Load (UdPtr (4 * dword_offset)) sizeof_T]
  /\ existsb is_mem_access (fst r) = false
  /\ (forall mem', Info.ReadUd d info mem' sizeof_T (NumScalarRegs d) dword_offset = r)
  /\ (forall n : nat,
        sizeof_T = 4 * Z.of_nat n ->
        0 <= dword_offset ->
        dword_offset + Z.of_nat n <= Z.of_nat (length (Info.user_data info)) ->
        snd r = Ok (span_bytes (take n (drop (Z.to_nat dword_offset) (Info.user_data info)))))
  /\ (forall e : BufferResource.t,
        BufferResource.sgpr_base e = NumScalarRegs d ->
        existsb is_mem_access (fst (BufferResource_GetSharp d e info mem)) = false)
  /\ (forall e : TextureBufferResource.t,
        TextureBufferResource.sgpr_base e = NumScalarRegs d ->
        existsb is_mem_access (fst (TextureBufferResource_GetSharp d e info mem)) = false)
  /\ (forall e : ImageResource.t,
        ImageResource.sgpr_base e = NumScalarRegs d ->
        existsb is_mem_access (fst (ImageResource_GetSharp d e info mem)) = false)
  /\ (forall e : SamplerResource.t,
        SamplerResource.sgpr_base e = NumScalarRegs d ->
        existsb is_mem_access (fst (SamplerResource_GetSharp d e info mem)) = false).
Proof.
  assert (forall sz o,
            existsb is_mem_access (fst (Info.ReadUd d info mem sz (NumScalarRegs d) o))
            = false) as Hno.
  { intros sz o. rewrite ReadUd_sentinel, load_log. reflexivity. }
  intros r. subst r. repeat split.
  - rewrite ReadUd_sentinel. apply load_log.
  - apply Hno.
  - intros mem'. rewrite !ReadUd_sentinel. reflexivity.
  - intros n -> Ho Hlen. rewrite ReadUd_sentinel. unfold load.
    destruct (Z.leb_spec 0 (4 * dword_offset)); [| lia].
    destruct (Z.leb_spec (4 * dword_offset + 4 * Z.of_nat n)
                (4 * Z.of_nat (length (Info.user_data info)))); [| lia].
    cbn [andb snd]. f_equal.
    replace (Z.to_nat (4 * Z.of_nat n)) with (4 * n)%nat by lia.
    replace (Z.to_nat (4 * dword_offset)) with (4 * Z.to_nat dword_offset)%nat by lia.
    rewrite drop_span_bytes, take_span_bytes. reflexivity.
  - intros e He. unfold BufferResource_GetSharp.
    destruct (Buffer_bool d _); [reflexivity |]. rewrite He. apply Hno.
  - intros e He. unfold TextureBufferResource_GetSharp. rewrite He. apply Hno.
  - intros e He. unfold ImageResource_GetSharp. rewrite He. apply Hno.
  - intros e He. unfold SamplerResource_GetSharp.
    destruct (Sampler_bool d _); [reflexivity |]. rewrite He. apply Hno.
Qed.

Lemma ReadUd_sentinel_inline_witness :
  snd (Info.ReadUd sample_decls sample_info sample_memory 16 104 2)
  = Ok (span_bytes [0x30; 0x40; 0x00400000; 0x12340001]).
Proof.
  destruct (ReadUd_sentinel_inline sample_decls sample_info sample_memory 16 2)
    as (_ & _ & _ & H & _).
  apply (H 4%nat); [reflexivity | discriminate | discriminate].
Defined.

(** C6. With a register index other than the sentinel, [ReadUd] reads the
    eight bytes at the register (the register and its successor, low word
    first), keeps the lower 48 bits of that pointer, and reads the
    [sizeof(T)] bytes of the descriptor from memory at the masked address
    plus 4 times [dword_offset]; this is what [GetSharp] does for an entry
    of any kind that has no inline descriptor. *)
Theorem ReadUd_indirect (d : Decls) (info : Info.t) (mem : memory)
    (ptr_index dword_offset lo hi : Z) :
  ptr_index <> NumScalarRegs d ->
  0 <= ptr_index ->
  Info.user_data info !! Z.to_nat ptr_index = Some lo ->
  Info.user_data info !! Z.to_nat (ptr_index + 1) = Some hi ->
  is_u32 lo -> is_u32 hi ->
  let ptr := lo + 2 ^ 32 * hi in
  let addr := Z.land ptr 0xFFFFFFFFFFFF + 4 * dword_offset in
  let reads sz := [Load (UdPtr (4 * ptr_index)) 8; Load (MemPtr addr) sz] in
  Z.land ptr 0xFFFFFFFFFFFF = ptr mod 2 ^ 48
  /\ (forall sizeof_T,
        Info.ReadUd d info mem sizeof_T ptr_index dword_offset
        = (reads sizeof_T, Ok (map mem (seqZ addr sizeof_T))))
  /\ (forall e : BufferResource.t,
        BufferResource.sgpr_base e = ptr_index ->
        BufferResource.dword_offset e = dword_offset ->
        Buffer_bool d (BufferResource.inline_cbuf e) = false ->
        BufferResource_GetSharp d e info mem
        = (reads (sizeof_Buffer d), Ok (map mem (seqZ addr (sizeof_Buffer d)))))
  /\ (forall e : TextureBufferResource.t,
        TextureBufferResource.sgpr_base e = ptr_index ->
        TextureBufferResource.dword_offset e = dword_offset ->
        TextureBufferResource_GetSharp d e info mem
        = (reads (sizeof_Buffer d), Ok (map mem (seqZ addr (sizeof_Buffer d)))))
  /\ (forall e : ImageResource.t,
        ImageResource.sgpr_base e = ptr_index ->
        ImageResource.dword_offset e = dword_offset ->
        ImageResource_GetSharp d e info mem
        = (reads (sizeof_Image d), Ok (map mem (seqZ addr (sizeof_Image d)))))
  /\ (forall e : SamplerResource.t,
        SamplerResource.sgpr_base e = ptr_index ->
        SamplerResource.dword_offset e = dword_offset ->
        Sampler_bool d (SamplerResource.inline_sampler e) = false ->
        SamplerResource_GetSharp d e info mem
        = (reads (sizeof_Sampler d), Ok (map mem (seqZ addr (sizeof_Sampler d))))).
Proof.
  intros Hne Hp Hlo Hhi Hlo32 Hhi32 ptr addr reads.
  assert (forall sz,
            Info.ReadUd d info mem sz ptr_index dword_offset
            = (reads sz, Ok (map mem (seqZ addr sz)))) as Hread.
  { intros sz. unfold Info.ReadUd. apply Z.eqb_neq in Hne as ->. cbn [negb].
    replace (Z.to_nat (ptr_index + 1)) with (S (Z.to_nat ptr_index)) in Hhi by lia.
    replace (4 * ptr_index) with (4 * Z.of_nat (Z.to_nat ptr_index)) by lia.
    rewrite (load_pair _ mem _ lo hi Hlo Hhi).
    cbn [tbind tret app ptr_add load].
    rewrite le_decode_pair by assumption.
    subst reads addr ptr. cbn beta.
    replace (4 * Z.of_nat (Z.to_nat ptr_index)) with (4 * ptr_index) by lia.
    reflexivity. }
  repeat split.
  - change 0xFFFFFFFFFFFF with (Z.ones 48). apply Z.land_ones. lia.
  - exact Hread.
  - intros e <- <- Hb. unfold BufferResource_GetSharp. rewrite Hb. apply Hread.
  - intros e <- <-. apply Hread.
  - intros e <- <-. apply Hread.
  - intros e <- <- Hb. unfold SamplerResource_GetSharp. rewrite Hb. apply Hread.
Qed.

Lemma ReadUd_indirect_witness :
  Info.ReadUd sample_decls sample_info sample_memory 16 4 2
  = ([Load (UdPtr 16) 8; Load (MemPtr 0x000100400008) 16],
     Ok (map sample_memory (seqZ 0x000100400008 16))).
Proof.
  destruct (ReadUd_indirect sample_decls sample_info sample_memory 4 2
              0x00400000 0x12340001) as (_ & H & _).
  - discriminate.
  - discriminate.
  - reflexivity.
  - reflexivity.
  - unfold is_u32. lia.
  - unfold is_u32. lia.
  - apply (H 16).
Defined.

(** ** Register map and packer together *)

Section MapAndPacker.

Lemma SetAll_in_range regs : forall m m',
  UserDataMask.SetAll m regs = Ok m' -> forall r, In r regs -> 0 <= r < 32.
Proof.
  induction regs as [| x rest IH]; intros m m' Hrun r Hr; [destruct Hr |].
  cbn [UserDataMask.SetAll] in Hrun.
  destruct (UserDataMask.Set_ m x) as [m1 |] eqn:Hset; cbn [rbind] in Hrun;
    [| discriminate].
  destruct Hr as [<- | Hr]; [| eapply IH; eauto].
  unfold UserDataMask.Set_ in Hset.
  destruct (Z.lt_ge_cases x 0); [rewrite shl_int_None in Hset by lia; discriminate |].
  destruct (Z.lt_ge_cases x 32); [lia |].
  rewrite shl_int_None in Hset by lia. discriminate.
Qed.

Lemma SetAll_set_bits regs m' :
  UserDataMask.SetAll {| UserDataMask.mask := 0 |} regs = Ok m' ->
  forall i, In i (set_bits (UserDataMask.mask m')) <-> In i regs.
Proof.
  intros Hrun i.
  pose proof (SetAll_in_range _ _ _ Hrun) as Hrange.
  destruct (SetAll_bits regs {| UserDataMask.mask := 0 |} Hrange) as (m2 & Hrun2 & Hbits).
  rewrite Hrun in Hrun2. injection Hrun2 as <-.
  rewrite in_set_bits. split.
  - intros [Hi Hb]. rewrite Hbits in Hb by lia. cbn [UserDataMask.mask] in Hb.
    rewrite Z.bits_0 in Hb. cbn [orb] in Hb.
    apply existsb_exists in Hb as (x & Hx & Hix). apply Z.eqb_eq in Hix as ->. exact Hx.
  - intros Hin. split; [apply Hrange, Hin |].
    rewrite Hbits by (apply Hrange in Hin; lia).
    apply orb_true_iff. right. apply existsb_exists.
    exists i. split; [exact Hin | apply Z.eqb_refl].
Qed.

Lemma map_by_position {A B} (f : A -> B) (g : nat -> B) (l : list A) : forall s,
  (forall (k : nat) a, l !! k = Some a -> f a = g (s + k)%nat) ->
  map f l = map g (seq s (length l)).
Proof.
  induction l as [| a l IH]; intros s H; [reflexivity |].
  cbn [map length seq]. f_equal.
  - rewrite (H 0%nat a eq_refl). f_equal. lia.
  - apply IH. intros k b Hk. rewrite (H (S k) b Hk). f_equal. lia.
Qed.

End MapAndPacker.

(** The mask for the registers 2, 5 and 9 is the same word whichever way
    round, and however often, the registers are marked. *)
Example SetAll_any_order :
  UserDataMask.SetAll {| UserDataMask.mask := 0 |} [2; 5; 9]
  = Ok {| UserDataMask.mask := 0x224 |}
  /\ UserDataMask.SetAll {| UserDataMask.mask := 0 |} [9; 2; 5]
     = Ok {| UserDataMask.mask := 0x224 |}
  /\ UserDataMask.SetAll {| UserDataMask.mask := 0 |} [5; 9; 5; 2]
     = Ok {| UserDataMask.mask := 0x224 |}
  /\ UserDataMask.SetAll {| UserDataMask.mask := 0 |} [2; 32]
     = Err BadShift.
Proof. repeat split; vm_compute; reflexivity. Qed.

(** C3. For a 32-bit register mask, [NumRegs] is the number of its set
    bits; [Index] of a register below 32 is the popcount of the mask with
    every bit at or above the register cleared, which is the number of set
    bits strictly below it; and the set bits, taken in ascending order,
    have the ranks 0, 1, ..., [NumRegs] - 1. *)
Theorem UserDataMask_rank (m : UserDataMask.t) :
  is_u32 (UserDataMask.mask m) ->
  let bits := set_bits (UserDataMask.mask m) in
  (forall i, In i bits <-> (0 <= i /\ Z.testbit (UserDataMask.mask m) i = true))
  /\ StronglySorted Z.lt bits
  /\ UserDataMask.NumRegs m = Z.of_nat (length bits)
  /\ (forall i, 0 <= i < 32 ->
        let below := Z.land (UserDataMask.mask m) (2 ^ i - 1) in
        UserDataMask.Index m i = Ok (popcount below)
        /\ (forall j, 0 <= j ->
              Z.testbit below j = Z.testbit (UserDataMask.mask m) j && (j <? i))
        /\ popcount below = Z.of_nat (length (List.filter (fun j => j <? i) bits)))
  /\ map (UserDataMask.Index m) bits
     = map (fun k => Ok (Z.of_nat k)) (seq 0 (Z.to_nat (UserDataMask.NumRegs m))).
Proof.
  intros Hm bits. subst bits.
  split; [intros i; apply set_bits_all, Hm |].
  split; [apply set_bits_sorted |].
  split; [apply popcount_set_bits |].
  split.
  - intros i Hi below. subst below.
    destruct (Index_spec m i Hi) as [Hidx Hcount].
    split; [exact Hidx |]. split; [| exact Hcount].
    intros j Hj. rewrite Z.land_spec. f_equal.
    rewrite Z.sub_1_r, <- Z.ones_equiv.
    destruct (Z.ltb_spec j i).
    + apply Z.ones_spec_low. lia.
    + apply Z.ones_spec_high. lia.
  - unfold UserDataMask.NumRegs. rewrite popcount_set_bits, Nat2Z.id.
    apply map_by_position. intros k i Hk. rewrite Nat.add_0_l.
    apply Index_rank, Hk.
Qed.

Lemma UserDataMask_rank_witness :
  map (UserDataMask.Index {| UserDataMask.mask := 0x224 |}) [2; 5; 9]
  = [Ok 0; Ok 1; Ok 2].
Proof.
  destruct (UserDataMask_rank {| UserDataMask.mask := 0x224 |}) as (_ & _ & _ & _ & H).
  - unfold is_u32. cbn [UserDataMask.mask]. lia.
  - exact H.
Defined.

(** C2. When every set bit of the mask is a register below 16 and the
    counter plus the popcount of the mask is at most 16, [PushUd] completes:
    the set bits, lowest register first, go to consecutive slots of
    [ud_regs] from the counter on, each slot receiving the word of its
    register, so a register sits at the counter plus its [Index]; the
    counter ends at its start plus the popcount; nothing else of the block
    or of the accumulator changes.  The mask, and with it the packing, does
    not depend on the order of the [Set] calls that built it. *)
Theorem PushUd_packs (info : Info.t) (bnd : Bindings.t) (push : PushData.t) :
  let mask := UserDataMask.mask (Info.ud_mask info) in
  let c := Bindings.user_data bnd in
  is_u32 mask ->
  Forall (fun i => i < NumUserDataRegs) (set_bits mask) ->
  0 <= c ->
  c + popcount mask <= NumUserDataRegs ->
  (Z.to_nat NumUserDataRegs <= length (Info.user_data info))%nat ->
  PushData.wf push ->
  exists push',
    Info.PushUd info bnd push
    = Ok ({| Bindings.unified := Bindings.unified bnd;
             Bindings.buffer := Bindings.buffer bnd;
             Bindings.user_data := c + popcount mask |}, push')
    /\ (forall i, In i (set_bits mask) <-> (0 <= i /\ Z.testbit mask i = true))
    /\ StronglySorted Z.lt (set_bits mask)
    /\ (forall (k : nat) i,
          set_bits mask !! k = Some i ->
          is_Some (Info.user_data info !! Z.to_nat i)
          /\ PushData.ud_regs push' !! (Z.to_nat c + k)%nat
             = Info.user_data info !! Z.to_nat i)
    /\ (forall i, 0 <= i -> Z.testbit mask i = true ->
          exists rank,
            UserDataMask.Index (Info.ud_mask info) i = Ok rank
            /\ 0 <= rank < popcount mask
            /\ PushData.ud_regs push' !! Z.to_nat (c + rank)
               = Info.user_data info !! Z.to_nat i)
    /\ (forall j : nat,
          (j < Z.to_nat c \/ Z.to_nat (c + popcount mask) <= j)%nat ->
          PushData.ud_regs push' !! j = PushData.ud_regs push !! j)
    /\ PushData.step0 push' = PushData.step0 push
    /\ PushData.step1 push' = PushData.step1 push
    /\ PushData.buf_offsets push' = PushData.buf_offsets push
    /\ PushData.wf push'
    /\ (forall regs,
          UserDataMask.SetAll {| UserDataMask.mask := 0 |} regs = Ok (Info.ud_mask info) ->
          forall i, In i (set_bits mask) <-> In i regs)
    /\ (forall regs regs',
          Permutation regs regs' ->
          UserDataMask.SetAll {| UserDataMask.mask := 0 |} regs
          = UserDataMask.SetAll {| UserDataMask.mask := 0 |} regs').
Proof.
  intros mask c Hm Hlow Hc Hcap Hud [Hbo Hlen].
  rewrite List.Forall_forall in Hlow.
  assert (forall i, In i (set_bits mask) ->
            0 <= i < NumUserDataRegs /\ is_Some (Info.user_data info !! Z.to_nat i))
    as Hregs.
  { intros i Hi. pose proof (Hlow i Hi) as Hlt.
    apply in_set_bits in Hi as [Hi _].
    split; [lia |]. apply lookup_lt_is_Some_2. unfold NumUserDataRegs in *. lia. }
  pose proof (popcount_set_bits mask) as Hpop.
  destruct (push_regs_ok info (set_bits mask) bnd push Hregs Hc) as
    (push' & Hrun & Hs0 & Hs1 & Hbo' & Hl & Hw & Hframe).
  { fold c. lia. }
  { exact Hlen. }
  exists push'. rewrite PushUd_push_regs by exact Hm. fold mask. rewrite Hrun.
  fold c. rewrite <- Hpop.
  split; [reflexivity |].
  split; [intros i; apply set_bits_all, Hm |].
  split; [apply set_bits_sorted |].
  split.
  { intros k i Hk. split; [| apply Hw, Hk].
    apply Hregs, list_elem_of_In, list_elem_of_lookup. eauto. }
  split.
  { intros i Hi Hb.
    assert (In i (set_bits mask)) as Hin by (apply set_bits_all; auto).
    apply list_elem_of_In, list_elem_of_lookup in Hin as [k Hk].
    exists (Z.of_nat k). split; [apply Index_rank, Hk |].
    pose proof (lookup_lt_Some _ _ _ Hk) as Hklt.
    split; [lia |].
    replace (Z.to_nat (c + Z.of_nat k)) with (Z.to_nat c + k)%nat by lia.
    apply Hw, Hk. }
  split.
  { intros j Hj. apply Hframe. fold c. lia. }
  split; [exact Hs0 |]. split; [exact Hs1 |]. split; [exact Hbo' |].
  split.
  { split; [rewrite Hbo'; exact Hbo | rewrite Hl; exact Hlen]. }
  split.
  - intros regs Hrun' i. apply (SetAll_set_bits regs _ Hrun').
  - intros regs regs' Hperm. apply SetAll_Permutation, Hperm.
Qed.

Lemma PushUd_packs_witness :
  exists push',
    Info.PushUd sample_info Bindings.zero sample_push
    = Ok ({| Bindings.unified := 0; Bindings.buffer := 0; Bindings.user_data := 3 |}, push')
    /\ PushData.ud_regs push' !! 0%nat = Some 0x30
    /\ PushData.ud_regs push' !! 1%nat = Some 0x12340001
    /\ PushData.ud_regs push' !! 2%nat = Some 0x90.
Proof.
  destruct (PushUd_packs sample_info Bindings.zero sample_push)
    as (push' & Hrun & _ & _ & Hw & _).
  - unfold is_u32. cbn. lia.
  - repeat constructor.
  - cbn. lia.
  - vm_compute. discriminate.
  - vm_compute. lia.
  - split; reflexivity.
  - exists push'. split; [exact Hrun |].
    split; [apply (Hw 0%nat 2 eq_refl) |].
    split; [apply (Hw 1%nat 5 eq_refl) | apply (Hw 2%nat 9 eq_refl)].
Defined.

(** C7. [PushUd] stops at its assertion exactly when the mask has a set
    bit at register 16 or above, or the slot counter stands at 16 or more
    with a register still to be written (the k-th write, counting from 0,
    finds the counter at its start plus k); it fails in no other way.  When
    every set bit is below 16 and the counter plus the popcount of the mask
    is at most 16 the assertion is not reached and [PushUd] completes. *)
Theorem PushUd_assert_iff (info : Info.t) (bnd : Bindings.t) (push : PushData.t) :
  let mask := UserDataMask.mask (Info.ud_mask info) in
  let c := Bindings.user_data bnd in
  is_u32 mask ->
  0 <= c ->
  (Z.to_nat NumUserDataRegs <= length (Info.user_data info))%nat ->
  NumUserDataRegs = 16
  /\ (Info.PushUd info bnd push = Err AssertFailed
      <-> ((exists i, 0 <= i /\ Z.testbit mask i = true /\ NumUserDataRegs <= i)
           \/ (exists k, 0 <= k < popcount mask /\ NumUserDataRegs <= c + k)))
  /\ (forall f, Info.PushUd info bnd push = Err f -> f = AssertFailed)
  /\ ((forall i, 0 <= i -> Z.testbit mask i = true -> i < NumUserDataRegs) ->
      c + popcount mask <= NumUserDataRegs ->
      exists r, Info.PushUd info bnd push = Ok r).
Proof.
  intros mask c Hm Hc Hud.
  pose proof (popcount_set_bits mask) as Hpop.
  destruct (push_regs_assert info (set_bits mask) bnd push) as [Hiff Honly].
  { intros i Hi. apply in_set_bits in Hi. lia. }
  { exact Hud. }
  { exact Hc. }
  pose proof (PushUd_push_regs info bnd push Hm) as Heq. fold mask in Heq.
  rewrite <- Heq in Hiff, Honly. clear Heq.
  fold c in Hiff.
  assert (Info.PushUd info bnd push = Err AssertFailed
          <-> ((exists i, 0 <= i /\ Z.testbit mask i = true /\ NumUserDataRegs <= i)
               \/ (exists k, 0 <= k < popcount mask /\ NumUserDataRegs <= c + k)))
    as Hmain.
  { rewrite Hiff. split.
    - intros [(i & Hi & Hge) | [Hne Hcap]].
      + left. exists i. apply (set_bits_all mask i Hm) in Hi. tauto.
      + right. exists (popcount mask - 1). rewrite Hpop.
        destruct (set_bits mask); [congruence |]. cbn [length] in *. lia.
    - intros [(i & Hi & Hb & Hge) | (k & Hk & Hge)].
      + left. exists i. split; [| exact Hge]. apply set_bits_all; auto.
      + right. rewrite Hpop in Hk. split; [| lia].
        intros Hnil. rewrite Hnil in Hk. cbn [length] in Hk. lia. }
  split; [reflexivity |]. split; [exact Hmain |]. split; [exact Honly |].
  intros Hlow Hcap.
  destruct (Info.PushUd info bnd push) as [r | f] eqn:Hrun; [exists r; reflexivity |].
  pose proof (Honly f eq_refl) as ->.
  exfalso. destruct (proj1 Hmain eq_refl) as [(i & Hi & Hb & Hge) | (k & Hk & Hge)].
  - specialize (Hlow i Hi Hb). lia.
  - lia.
Qed.

Lemma PushUd_assert_iff_witness :
  Info.PushUd sample_info
    {| Bindings.unified := 0; Bindings.buffer := 0; Bindings.user_data := 14 |}
    sample_push
  = Err AssertFailed.
Proof.
  destruct (PushUd_assert_iff sample_info
              {| Bindings.unified := 0; Bindings.buffer := 0; Bindings.user_data := 14 |}
              sample_push) as (_ & H & _).
  - unfold is_u32. cbn. lia.
  - cbn. lia.
  - vm_compute. lia.
  - apply H. right. exists 2. split; [vm_compute; split; [discriminate | reflexivity] |].
    vm_compute. discriminate.
Defined.

(** * Further properties of the header *)

(** ** Attribute flags *)

Section Attributes.

Lemma s32_small x : - 2 ^ 31 <= x < 2 ^ 31 -> s32 x = x.
Proof. intros Hx. unfold s32. rewrite Z.mod_small; lia. Qed.

Lemma land_pow2 v c :
  0 <= c -> Z.land v (2 ^ c) = if Z.testbit v c then 2 ^ c else 0.
Proof.
  intros Hc. apply Z.bits_inj'. intros j Hj.
  rewrite Z.land_spec, Z.pow2_bits_eqb by exact Hc.
  destruct (Z.eqb_spec c j) as [<- | Hne].
  - destruct (Z.testbit v c) eqn:Hb.
    + rewrite Z.pow2_bits_eqb, Z.eqb_refl by exact Hc. reflexivity.
    + rewrite Z.bits_0. reflexivity.
  - rewrite andb_false_r. destruct (Z.testbit v c).
    + rewrite Z.pow2_bits_eqb by exact Hc. symmetry. apply Z.eqb_neq. exact Hne.
    + rewrite Z.bits_0. reflexivity.
Qed.

Lemma land_pow2_test v c :
  0 <= c -> negb (Z.land v (2 ^ c) =? 0) = Z.testbit v c.
Proof.
  intros Hc. rewrite land_pow2 by exact Hc.
  destruct (Z.testbit v c); [| reflexivity].
  assert (0 < 2 ^ c) by (apply Z.pow_pos_nonneg; lia).
  destruct (Z.eqb_spec (2 ^ c) 0); [lia | reflexivity].
Qed.

Lemma shl_int_low c : 0 <= c < 31 -> shl_int 1 c = Some (2 ^ c).
Proof.
  intros Hc. rewrite shl_int_1 by lia. f_equal. apply s32_small.
  assert (0 < 2 ^ c) by (apply Z.pow_pos_nonneg; lia).
  assert (2 ^ c < 2 ^ 31) by (apply Z.pow_lt_mono_r; lia). lia.
Qed.

Lemma testbit_u8 x j : 0 <= j -> Z.testbit (u8 x) j = (j <? 8) && Z.testbit x j.
Proof.
  intros Hj. unfold u8. destruct (Z.ltb_spec j 8); cbn [andb].
  - apply Z.mod_pow2_bits_low. lia.
  - apply Z.mod_pow2_bits_high. lia.
Qed.

Lemma u8_small x : 0 <= x < 256 -> u8 x = x.
Proof. intros Hx. unfold u8. apply Z.mod_small. exact Hx. Qed.

Lemma u8_range x : 0 <= u8 x < 256.
Proof. unfold u8. apply Z.mod_pos_bound. reflexivity. Qed.

Lemma byte_testbit_high v j : 0 <= v < 256 -> 8 <= j -> Z.testbit v j = false.
Proof.
  intros Hv Hj. rewrite <- (u8_small v Hv), testbit_u8 by lia.
  destruct (Z.ltb_spec j 8); [lia | reflexivity].
Qed.

Lemma flag_at_lookup f a :
  0 <= a ->
  AttributeFlags.flag_at f a
  = of_option OutOfBounds (AttributeFlags.flags f !! Z.to_nat a).
Proof.
  intros Ha. unfold AttributeFlags.flag_at, AttributeFlags.Index.
  destruct (Z.ltb_spec a 0); [lia | reflexivity].
Qed.

Lemma Get_testbit f a c v :
  0 <= a -> 0 <= c < 31 ->
  AttributeFlags.flags f !! Z.to_nat a = Some v ->
  AttributeFlags.Get f a c = Ok (Z.testbit v c).
Proof.
  intros Ha Hc Hv. unfold AttributeFlags.Get.
  rewrite flag_at_lookup, Hv, shl_int_low by lia. cbn [of_option rbind].
  rewrite land_pow2_test by lia. reflexivity.
Qed.

(** The bit stored by [1 << comp] has no bit below 8 once [comp] is 8 or
    more. *)
Lemma shl_int_high_bits c j :
  8 <= c < 32 -> 0 <= j < 8 ->
  exists bit, shl_int 1 c = Some bit /\ Z.testbit bit j = false.
Proof.
  intros Hc Hj. exists (s32 (2 ^ c)). split; [apply shl_int_1; lia |].
  rewrite <- (Z.mod_pow2_bits_low _ 32) by lia.
  fold (u32 (s32 (2 ^ c))). rewrite u32_s32, u32_small by (apply pow2_is_u32; lia).
  rewrite Z.pow2_bits_eqb by lia. apply Z.eqb_neq. lia.
Qed.

End Attributes.

(** X1. On a flag array of bytes, [Set] of component [c] (below 8) of
    attribute [a] succeeds, keeps the array a byte array of the same
    length, and afterwards [Get] of any attribute [a'] and component [c']
    (below 8) is what it was before, or true when [a' = a] and [c' = c]. *)
Theorem AttributeFlags_Get_Set (f : AttributeFlags.t) (a c a' c' : Z) :
  AttributeFlags.wf f ->
  0 <= a < Z.of_nat (length (AttributeFlags.flags f)) ->
  0 <= a' < Z.of_nat (length (AttributeFlags.flags f)) ->
  0 <= c < 8 -> 0 <= c' < 8 ->
  exists f' before,
    AttributeFlags.Set_ f a c = Ok f'
    /\ AttributeFlags.wf f'
    /\ length (AttributeFlags.flags f') = length (AttributeFlags.flags f)
    /\ AttributeFlags.Get f a' c' = Ok before
    /\ AttributeFlags.Get f' a' c' = Ok (before || ((a' =? a) && (c' =? c))).
Proof.
  intros Hwf Ha Ha' Hc Hc'.
  destruct (lookup_lt_is_Some_2 (AttributeFlags.flags f) (Z.to_nat a)) as [v Hv]; [lia |].
  destruct (lookup_lt_is_Some_2 (AttributeFlags.flags f) (Z.to_nat a')) as [v' Hv']; [lia |].
  set (f' := {| AttributeFlags.flags :=
                  <[Z.to_nat a := u8 (Z.lor v (2 ^ c))]> (AttributeFlags.flags f) |}).
  exists f', (Z.testbit v' c').
  assert (AttributeFlags.Set_ f a c = Ok f') as Hset.
  { unfold AttributeFlags.Set_. rewrite flag_at_lookup, Hv, shl_int_low by lia.
    reflexivity. }
  split; [exact Hset |]. split; [| split; [| split]].
  - unfold AttributeFlags.wf, f'. cbn [AttributeFlags.flags].
    unfold AttributeFlags.wf in Hwf. rewrite List.Forall_forall in *.
    intros x Hx. apply list_elem_of_In, list_elem_of_lookup in Hx as [k Hk].
    apply list_lookup_insert_Some in Hk as [(_ & <- & _) | (_ & Hk)].
    + apply u8_range.
    + apply Hwf, list_elem_of_In, list_elem_of_lookup. eauto.
  - unfold f'. cbn [AttributeFlags.flags]. apply length_insert.
  - apply Get_testbit; [lia | lia | exact Hv'].
  - destruct (Z.eqb_spec a' a) as [-> | Hne]; cbn [andb].
    + rewrite Hv in Hv'. injection Hv' as <-.
      rewrite (Get_testbit f' a c' (u8 (Z.lor v (2 ^ c)))); [| lia | lia |].
      * rewrite testbit_u8, Z.lor_spec, Z.pow2_bits_eqb by lia.
        destruct (Z.ltb_spec c' 8); [| lia]. cbn [andb].
        rewrite (Z.eqb_sym c c'). reflexivity.
      * unfold f'. cbn [AttributeFlags.flags]. apply list_lookup_insert_eq. lia.
    + rewrite orb_false_r. apply Get_testbit; [lia | lia |].
      unfold f'. cbn [AttributeFlags.flags].
      rewrite list_lookup_insert_ne by lia. exact Hv'.
Qed.

Lemma AttributeFlags_Get_Set_witness :
  exists f',
    AttributeFlags.Set_ sample_flags 2 3 = Ok f'
    /\ AttributeFlags.Get f' 2 3 = Ok true
    /\ AttributeFlags.Get f' 1 3 = Ok false.
Proof.
  destruct (AttributeFlags_Get_Set sample_flags 2 3 2 3)
    as (f' & b & Hset & _ & _ & Hb & Hget); try (cbn; lia).
  { repeat constructor; cbn; lia. }
  destruct (AttributeFlags_Get_Set sample_flags 2 3 1 3)
    as (f2 & b2 & Hset2 & _ & _ & Hb2 & Hget2); try (cbn; lia).
  { repeat constructor; cbn; lia. }
  exists f'. split; [exact Hset |].
  rewrite Hset in Hset2. injection Hset2 as <-.
  split.
  - rewrite Hget. rewrite orb_true_r. reflexivity.
  - rewrite Hget2. vm_compute in Hb2. injection Hb2 as <-. reflexivity.
Defined.

(** X2. The flags are bytes: [Set] with a component from 8 to 31 stores
    nothing, the array is unchanged, and [Get] with such a component is
    false whatever was set. *)
Theorem AttributeFlags_high_component (f : AttributeFlags.t) (a c : Z) :
  AttributeFlags.wf f ->
  0 <= a < Z.of_nat (length (AttributeFlags.flags f)) ->
  8 <= c < 32 ->
  AttributeFlags.Set_ f a c = Ok f
  /\ AttributeFlags.Get f a c = Ok false.
Proof.
  intros Hwf Ha Hc.
  destruct (lookup_lt_is_Some_2 (AttributeFlags.flags f) (Z.to_nat a)) as [v Hv]; [lia |].
  assert (0 <= v < 256) as Hvr.
  { unfold AttributeFlags.wf in Hwf. rewrite List.Forall_forall in Hwf.
    apply Hwf, list_elem_of_In, list_elem_of_lookup. eauto. }
  assert (forall j, 0 <= j < 8 -> Z.testbit (s32 (2 ^ c)) j = false) as Hlow.
  { intros j Hj. destruct (shl_int_high_bits c j Hc Hj) as (bit & Hbit & Hb).
    rewrite shl_int_1 in Hbit by lia. injection Hbit as <-. exact Hb. }
  split.
  - unfold AttributeFlags.Set_. rewrite flag_at_lookup, Hv, shl_int_1 by lia.
    unfold AttributeFlags.Index.
    cbn [of_option rbind]. destruct f as [fl]. cbn [AttributeFlags.flags] in *.
    do 2 f_equal. apply list_insert_id. rewrite Hv. f_equal.
    apply Z.bits_inj'. intros j Hj. rewrite testbit_u8, Z.lor_spec by exact Hj.
    destruct (Z.ltb_spec j 8); cbn [andb].
    + rewrite Hlow by lia. symmetry. apply orb_false_r.
    + apply byte_testbit_high; [exact Hvr | lia].
  - unfold AttributeFlags.Get. rewrite flag_at_lookup, Hv, shl_int_1 by lia.
    cbn [of_option rbind]. do 2 f_equal.
    replace (Z.land v (s32 (2 ^ c))) with 0; [reflexivity |].
    symmetry. apply Z.bits_inj'. intros j Hj. rewrite Z.bits_0, Z.land_spec.
    destruct (Z.lt_ge_cases j 8).
    + rewrite Hlow by lia. apply andb_false_r.
    + rewrite byte_testbit_high by (try exact Hvr; lia). reflexivity.
Qed.

Lemma AttributeFlags_high_component_witness :
  AttributeFlags.Set_ sample_flags 1 9 = Ok sample_flags
  /\ AttributeFlags.Get sample_flags 1 9 = Ok false.
Proof.
  apply (AttributeFlags_high_component sample_flags 1 9); try (cbn; lia).
  repeat constructor; cbn; lia.
Defined.

(** X3. [GetAny] of an attribute is true exactly when [Get] is true for one
    of its components 0 to 7. *)
Theorem AttributeFlags_GetAny_iff (f : AttributeFlags.t) (a : Z) :
  AttributeFlags.wf f ->
  0 <= a < Z.of_nat (length (AttributeFlags.flags f)) ->
  (AttributeFlags.GetAny f a = Ok true
   <-> exists c, 0 <= c < 8 /\ AttributeFlags.Get f a c = Ok true).
Proof.
  intros Hwf Ha.
  destruct (lookup_lt_is_Some_2 (AttributeFlags.flags f) (Z.to_nat a)) as [v Hv]; [lia |].
  assert (0 <= v < 256) as Hvr.
  { unfold AttributeFlags.wf in Hwf. rewrite List.Forall_forall in Hwf.
    apply Hwf, list_elem_of_In, list_elem_of_lookup. eauto. }
  unfold AttributeFlags.GetAny. rewrite flag_at_lookup, Hv by lia.
  cbn [of_option rbind]. split.
  - intros [= Hne]. apply negb_true_iff, Z.eqb_neq in Hne.
    assert (existsb (Z.testbit v) (seqZ 0 8) = true) as Hex.
    { destruct (existsb (Z.testbit v) (seqZ 0 8)) eqn:Hex; [reflexivity |].
      exfalso. apply Hne. apply Z.bits_inj'. intros j Hj. rewrite Z.bits_0.
      destruct (Z.lt_ge_cases j 8).
      - destruct (Z.testbit v j) eqn:Hb; [| reflexivity].
        rewrite <- Hex. symmetry. apply existsb_exists. exists j.
        split; [| exact Hb]. apply list_elem_of_In, elem_of_seqZ. lia.
      - apply byte_testbit_high; [exact Hvr | lia]. }
    apply existsb_exists in Hex as (c & Hc & Hb).
    apply list_elem_of_In, elem_of_seqZ in Hc.
    exists c. split; [lia |].
    rewrite (Get_testbit f a c v) by (try exact Hv; lia). rewrite Hb. reflexivity.
  - intros (c & Hc & Hget).
    rewrite (Get_testbit f a c v) in Hget by (try exact Hv; lia).
    injection Hget as Hb. f_equal. apply negb_true_iff, Z.eqb_neq.
    intros ->. rewrite Z.bits_0 in Hb. discriminate.
Qed.

Lemma AttributeFlags_GetAny_iff_witness :
  AttributeFlags.GetAny sample_flags 1 = Ok true.
Proof.
  apply (AttributeFlags_GetAny_iff sample_flags 1); try (cbn; lia).
  - repeat constructor; cbn; lia.
  - exists 2. split; [lia | reflexivity].
Defined.

(** ** Binding offsets of the constant block *)

Section Offsets.

(** The packing loop does not look at the binding offsets. *)
Lemma PushUd_loop_buf_offsets fuel info bo : forall mask bnd p,
  Info.PushUd_loop fuel info mask bnd
    {| PushData.step0 := PushData.step0 p; PushData.step1 := PushData.step1 p;
       PushData.buf_offsets := bo; PushData.ud_regs := PushData.ud_regs p |}
  = (r <- Info.PushUd_loop fuel info mask bnd p ;;
     Ok (fst r,
         {| PushData.step0 := PushData.step0 (snd r);
            PushData.step1 := PushData.step1 (snd r);
            PushData.buf_offsets := bo;
            PushData.ud_regs := PushData.ud_regs (snd r) |})).
Proof.
  induction fuel as [| fuel IH]; intros mask bnd p; cbn [Info.PushUd_loop].
  - destruct (mask =? 0); reflexivity.
  - destruct (mask =? 0); [reflexivity |].
    destruct (_ && _); [| reflexivity].
    destruct (shl_u32 1 (countr_zero mask)); cbn [of_option rbind]; [| reflexivity].
    destruct (Info.ud_at info (countr_zero mask)) as [v |]; cbn [rbind]; [| reflexivity].
    rewrite <- IH. reflexivity.
Qed.

Lemma PushUd_loop_keeps_offsets fuel info : forall mask bnd p bnd' p',
  Info.PushUd_loop fuel info mask bnd p = Ok (bnd', p') ->
  PushData.buf_offsets p' = PushData.buf_offsets p.
Proof.
  induction fuel as [| fuel IH]; intros mask bnd p bnd' p'; cbn [Info.PushUd_loop].
  - destruct (mask =? 0); [| discriminate]. intros [= _ <-]. reflexivity.
  - destruct (mask =? 0); [intros [= _ <-]; reflexivity |].
    destruct (_ && _); [| discriminate].
    destruct (shl_u32 1 (countr_zero mask)); cbn [of_option rbind]; [| discriminate].
    destruct (Info.ud_at info (countr_zero mask)) as [v |]; cbn [rbind]; [| discriminate].
    intros Hrun. apply IH in Hrun. exact Hrun.
Qed.

Lemma PushUd_unfold info bnd p :
  Info.PushUd info bnd p
  = Info.PushUd_loop 32 info (UserDataMask.mask (Info.ud_mask info)) bnd p.
Proof. reflexivity. Qed.

End Offsets.

(** X4. On a block with its 32 offsets, [AddOffset] of a binding below 32
    and an offset below 256 succeeds: the offset is then read back at the
    binding, every other binding and every other member is unchanged.  With
    a binding of 32 or more, or an offset of 256 or more, it stops at its
    assertion. *)
Theorem AddOffset_spec (p : PushData.t) (binding offset : Z) :
  PushData.wf p ->
  0 <= binding -> 0 <= offset ->
  (offset < 256 /\ binding < 32 ->
   exists p',
     PushData.AddOffset p binding offset = Ok p'
     /\ PushData.wf p'
     /\ PushData.buf_offsets p' !! Z.to_nat binding = Some offset
     /\ (forall b : nat, b <> Z.to_nat binding ->
           PushData.buf_offsets p' !! b = PushData.buf_offsets p !! b)
     /\ PushData.step0 p' = PushData.step0 p
     /\ PushData.step1 p' = PushData.step1 p
     /\ PushData.ud_regs p' = PushData.ud_regs p)
  /\ (~ (offset < 256 /\ binding < 32) ->
      PushData.AddOffset p binding offset = Err AssertFailed).
Proof.
  intros [Hbo Hud] Hb Ho. unfold PushData.AddOffset. rewrite Hbo. split.
  - intros [Ho256 Hb32].
    destruct (Z.ltb_spec offset 256); [| lia].
    destruct (Z.ltb_spec binding (Z.of_nat 32)); [| lia]. cbn [andb].
    eexists. split; [reflexivity |]. cbn [PushData.buf_offsets PushData.ud_regs
      PushData.step0 PushData.step1].
    split; [split; cbn [PushData.buf_offsets PushData.ud_regs];
            [rewrite length_insert; exact Hbo | exact Hud] |].
    split; [apply list_lookup_insert_eq; lia |].
    split; [intros b Hne; apply list_lookup_insert_ne; lia |].
    repeat split.
  - intros Hnot.
    destruct (Z.ltb_spec offset 256); destruct (Z.ltb_spec binding (Z.of_nat 32));
      cbn [andb]; try reflexivity.
    exfalso. apply Hnot. lia.
Qed.

Lemma AddOffset_spec_witness :
  PushData.AddOffset sample_push 3 256 = Err AssertFailed.
Proof.
  destruct (AddOffset_spec sample_push 3 256) as [_ H]; try lia.
  - split; reflexivity.
  - apply H. lia.
Defined.

(** X5. Two [AddOffset] calls on different bindings give the same block in
    either order, failures included; a second call on the same binding
    replaces the offset of the first. *)
Theorem AddOffset_order (p : PushData.t) (b1 o1 b2 o2 : Z) :
  0 <= b1 -> 0 <= b2 ->
  (b1 <> b2 ->
   (p1 <- PushData.AddOffset p b1 o1 ;; PushData.AddOffset p1 b2 o2)
   = (p2 <- PushData.AddOffset p b2 o2 ;; PushData.AddOffset p2 b1 o1))
  /\ (forall p1,
        PushData.AddOffset p b1 o1 = Ok p1 ->
        PushData.AddOffset p1 b1 o2 = PushData.AddOffset p b1 o2).
Proof.
  intros Hb1 Hb2. unfold PushData.AddOffset. split.
  - intros Hne.
    destruct ((o1 <? 256) && (b1 <? Z.of_nat (length (PushData.buf_offsets p)))) eqn:H1;
      destruct ((o2 <? 256) && (b2 <? Z.of_nat (length (PushData.buf_offsets p)))) eqn:H2;
      cbn [rbind PushData.buf_offsets PushData.step0 PushData.step1 PushData.ud_regs];
      rewrite ?length_insert, ?H1, ?H2; try reflexivity.
    do 2 f_equal. apply list_insert_insert_ne. lia.
  - intros p1.
    destruct ((o1 <? 256) && (b1 <? Z.of_nat (length (PushData.buf_offsets p))));
      [| discriminate].
    intros [= <-]. cbn [PushData.buf_offsets PushData.step0 PushData.step1 PushData.ud_regs].
    rewrite length_insert, list_insert_insert_eq. reflexivity.
Qed.

Lemma AddOffset_order_witness :
  (p1 <- PushData.AddOffset sample_push 1 16 ;; PushData.AddOffset p1 2 32)
  = (p2 <- PushData.AddOffset sample_push 2 32 ;; PushData.AddOffset p2 1 16).
Proof.
  destruct (AddOffset_order sample_push 1 16 2 32) as [H _]; try lia.
  apply H. lia.
Defined.

(** X6. [PushUd] and [AddOffset] write different arrays of the block:
    [PushUd] leaves the binding offsets as they are, and after an
    [AddOffset] that succeeds it does what it does without it, the offset
    being added to its result. *)
Theorem PushUd_AddOffset_independent (info : Info.t) (bnd : Bindings.t)
    (p p2 : PushData.t) (binding offset : Z) :
  PushData.AddOffset p binding offset = Ok p2 ->
  (forall bnd' p', Info.PushUd info bnd p = Ok (bnd', p') ->
     PushData.buf_offsets p' = PushData.buf_offsets p)
  /\ Info.PushUd info bnd p2
     = (r <- Info.PushUd info bnd p ;;
        p' <- PushData.AddOffset (snd r) binding offset ;;
        Ok (fst r, p')).
Proof.
  intros Hadd. split.
  - intros bnd' p'. rewrite PushUd_unfold. apply PushUd_loop_keeps_offsets.
  - unfold PushData.AddOffset in Hadd.
    destruct ((offset <? 256) && (binding <? Z.of_nat (length (PushData.buf_offsets p))))
      eqn:Hchk; [| discriminate].
    injection Hadd as <-. rewrite !PushUd_unfold.
    generalize 32%nat as fuel. intros fuel.
    rewrite PushUd_loop_buf_offsets.
    destruct (Info.PushUd_loop fuel info (UserDataMask.mask (Info.ud_mask info)) bnd p)
      as [[bnd' p'] |] eqn:Hrun; cbn [rbind fst snd]; [| reflexivity].
    unfold PushData.AddOffset.
    rewrite (PushUd_loop_keeps_offsets _ _ _ _ _ _ _ Hrun), Hchk. reflexivity.
Qed.

Lemma PushUd_AddOffset_independent_witness :
  exists p2,
    PushData.AddOffset sample_push 3 64 = Ok p2
    /\ Info.PushUd sample_info Bindings.zero p2
       = (r <- Info.PushUd sample_info Bindings.zero sample_push ;;
          p' <- PushData.AddOffset (snd r) 3 64 ;;
          Ok (fst r, p')).
Proof.
  eexists. split; [reflexivity |].
  apply (PushUd_AddOffset_independent sample_info Bindings.zero sample_push).
  reflexivity.
Defined.

(** ** More on the register map *)

Section RegisterMapMore.

Lemma length_filter_or_eq (p : Z -> bool) (r : Z) (l : list Z) :
  List.NoDup l ->
  length (List.filter (fun j => p j || (j =? r)) l)
  = (length (List.filter p l)
     + (if existsb (Z.eqb r) l then (if p r then 0 else 1) else 0))%nat.
Proof.
  induction 1 as [| a l Hnot Hnd IH]; [reflexivity |].
  cbn [List.filter existsb]. rewrite (Z.eqb_sym r a).
  destruct (Z.eqb_spec a r) as [-> | Hne].
  - assert (existsb (Z.eqb r) l = false) as Hex.
    { destruct (existsb (Z.eqb r) l) eqn:Hex; [| reflexivity].
      apply existsb_exists in Hex as (x & Hx & Hrx). apply Z.eqb_eq in Hrx as <-.
      contradiction. }
    rewrite Hex in IH. rewrite orb_true_r. cbn [orb length].
    destruct (p r); cbn [length]; lia.
  - rewrite orb_false_r. cbn [orb].
    destruct (p a); cbn [length]; rewrite IH; lia.
Qed.

Lemma popcount_lor_bit x r :
  0 <= r < 32 ->
  popcount (Z.lor x (2 ^ r)) = popcount x + (if Z.testbit x r then 0 else 1).
Proof.
  intros Hr. rewrite !popcount_set_bits, !set_bits_unfold.
  rewrite (filter_ext_in (Z.testbit (Z.lor x (2 ^ r)))
             (fun j => Z.testbit x j || (j =? r))).
  - rewrite length_filter_or_eq by (apply NoDup_ListNoDup, NoDup_seqZ).
    assert (existsb (Z.eqb r) bit_positions = true) as ->.
    { apply existsb_exists. exists r. split; [| apply Z.eqb_refl].
      apply list_elem_of_In, elem_of_seqZ. lia. }
    destruct (Z.testbit x r); lia.
  - intros j Hj. apply list_elem_of_In, elem_of_seqZ in Hj.
    rewrite Z.lor_spec, Z.pow2_bits_eqb by lia. rewrite (Z.eqb_sym r j). reflexivity.
Qed.

Lemma length_filter_le {A} (f g : A -> bool) (l : list A) :
  (forall x, In x l -> f x = true -> g x = true) ->
  (length (List.filter f l) <= length (List.filter g l))%nat.
Proof.
  induction l as [| a l IH]; intros H; [reflexivity |].
  cbn [List.filter].
  assert (length (List.filter f l) <= length (List.filter g l))%nat as Hle.
  { apply IH. intros x Hx. apply H. right. exact Hx. }
  destruct (f a) eqn:Hf.
  - rewrite (H a (or_introl eq_refl) Hf). cbn [length]. lia.
  - destruct (g a); cbn [length]; lia.
Qed.

Lemma length_positions_below i :
  0 <= i <= 32 -> length (List.filter (fun j => j <? i) bit_positions) = Z.to_nat i.
Proof.
  intros Hi. unfold bit_positions.
  replace 32 with (i + (32 - i)) by lia. rewrite seqZ_app by lia.
  rewrite List.filter_app, List.length_app.
  rewrite (filter_ext_in _ (fun _ => true) (seqZ 0 i)).
  - rewrite (filter_ext_in _ (fun _ => false) (seqZ (0 + i) (32 - i))).
    + rewrite filter_true, filter_false, length_seqZ. cbn [length]. lia.
    + intros j Hj. apply list_elem_of_In, elem_of_seqZ in Hj. apply Z.ltb_ge. lia.
  - intros j Hj. apply list_elem_of_In, elem_of_seqZ in Hj. apply Z.ltb_lt. lia.
Qed.

End RegisterMapMore.

(** X7. [Set] of a register below 32 adds one to [NumRegs] when the
    register was not in the mask and leaves it as it was otherwise; the
    mask stays a 32-bit word, and marking the register a second time
    changes nothing. *)
Theorem Set_NumRegs (m : UserDataMask.t) (reg : Z) :
  is_u32 (UserDataMask.mask m) ->
  0 <= reg < 32 ->
  exists m',
    UserDataMask.Set_ m reg = Ok m'
    /\ is_u32 (UserDataMask.mask m')
    /\ Z.testbit (UserDataMask.mask m') reg = true
    /\ UserDataMask.NumRegs m'
       = UserDataMask.NumRegs m
         + (if Z.testbit (UserDataMask.mask m) reg then 0 else 1)
    /\ UserDataMask.Set_ m' reg = Ok m'.
Proof.
  intros Hm Hr.
  exists {| UserDataMask.mask := Z.lor (UserDataMask.mask m) (2 ^ reg) |}.
  pose proof (Set_spec m reg Hr) as Hset.
  split; [exact Hset |].
  split; [exact (Set_is_u32 m reg _ Hm Hset) |].
  cbn [UserDataMask.mask]. split; [| split].
  - rewrite Z.lor_spec, Z.pow2_bits_eqb, Z.eqb_refl by lia. apply orb_true_r.
  - unfold UserDataMask.NumRegs. cbn [UserDataMask.mask].
    apply popcount_lor_bit, Hr.
  - rewrite Set_spec by exact Hr. cbn [UserDataMask.mask].
    rewrite <- Z.lor_assoc, Z.lor_diag. reflexivity.
Qed.

Lemma Set_NumRegs_witness :
  exists m',
    UserDataMask.Set_ {| UserDataMask.mask := 0x224 |} 7 = Ok m'
    /\ UserDataMask.NumRegs m' = 4.
Proof.
  destruct (Set_NumRegs {| UserDataMask.mask := 0x224 |} 7)
    as (m' & Hset & _ & _ & Hn & _).
  - unfold is_u32. cbn. lia.
  - lia.
  - exists m'. split; [exact Hset |]. rewrite Hn. reflexivity.
Defined.

(** X8. [Index] of a register below 32 is never more than the register
    itself nor more than [NumRegs], and it does not decrease from a register
    to a higher one. *)
Theorem Index_bounds (m : UserDataMask.t) (i j : Z) :
  0 <= i -> i <= j -> j < 32 ->
  exists ri rj,
    UserDataMask.Index m i = Ok ri
    /\ UserDataMask.Index m j = Ok rj
    /\ 0 <= ri /\ ri <= rj /\ rj <= j /\ rj <= UserDataMask.NumRegs m.
Proof.
  intros Hi Hij Hj.
  destruct (Index_spec m i) as [Hidx_i Hcnt_i]; [lia |].
  destruct (Index_spec m j) as [Hidx_j Hcnt_j]; [lia |].
  eexists _, _. split; [exact Hidx_i |]. split; [exact Hidx_j |].
  rewrite Hcnt_i, Hcnt_j.
  split; [lia |]. split; [| split].
  - apply Nat2Z.inj_le, length_filter_le.
    intros x _ Hx. apply Z.ltb_lt in Hx. apply Z.ltb_lt. lia.
  - rewrite set_bits_unfold, filter_filter_and.
    transitivity (Z.of_nat (length (List.filter (fun x => x <? j) bit_positions))).
    + apply Nat2Z.inj_le, length_filter_le.
      intros x _ Hx. apply andb_true_iff in Hx. apply Hx.
    + rewrite length_positions_below by lia. lia.
  - unfold UserDataMask.NumRegs. rewrite popcount_set_bits.
    apply Nat2Z.inj_le, List.filter_length_le.
Qed.

Lemma Index_bounds_witness :
  exists ri rj,
    UserDataMask.Index {| UserDataMask.mask := 0x224 |} 3 = Ok ri
    /\ UserDataMask.Index {| UserDataMask.mask := 0x224 |} 9 = Ok rj
    /\ ri <= rj.
Proof.
  destruct (Index_bounds {| UserDataMask.mask := 0x224 |} 3 9)
    as (ri & rj & Hi & Hj & _ & Hle & _); try lia.
  exists ri, rj. auto.
Defined.

(** X9. Marking register [reg] moves the registers above it up by one
    rank when [reg] was not in the mask, and leaves every other rank as it
    was: the rank of a register depends on the registers below it only. *)
Theorem Index_after_Set (m : UserDataMask.t) (reg i : Z) :
  0 <= reg < 32 -> 0 <= i < 32 ->
  exists m' rank,
    UserDataMask.Set_ m reg = Ok m'
    /\ UserDataMask.Index m i = Ok rank
    /\ UserDataMask.Index m' i
       = Ok (rank + (if (reg <? i) && negb (Z.testbit (UserDataMask.mask m) reg)
                     then 1 else 0)).
Proof.
  intros Hr Hi.
  exists {| UserDataMask.mask := Z.lor (UserDataMask.mask m) (2 ^ reg) |}.
  destruct (Index_spec m i Hi) as [Hidx _].
  eexists. split; [apply Set_spec, Hr |]. split; [exact Hidx |].
  destruct (Index_spec {| UserDataMask.mask := Z.lor (UserDataMask.mask m) (2 ^ reg) |}
              i Hi) as [-> _].
  cbn [UserDataMask.mask]. f_equal.
  rewrite Z.land_lor_distr_l.
  assert (Z.land (2 ^ reg) (2 ^ i - 1) = if reg <? i then 2 ^ reg else 0) as ->.
  { rewrite Z.land_comm, land_pow2 by lia.
    rewrite Z.sub_1_r, <- Z.ones_equiv.
    destruct (Z.ltb_spec reg i).
    - rewrite Z.ones_spec_low by lia. reflexivity.
    - rewrite Z.ones_spec_high by lia. reflexivity. }
  destruct (Z.ltb_spec reg i) as [Hlt | Hge]; cbn [andb].
  - rewrite popcount_lor_bit by exact Hr.
    rewrite Z.land_spec, Z.sub_1_r, <- Z.ones_equiv, Z.ones_spec_low by lia.
    rewrite andb_true_r. destruct (Z.testbit (UserDataMask.mask m) reg); reflexivity.
  - rewrite Z.lor_0_r. lia.
Qed.

Lemma Index_after_Set_witness :
  exists m',
    UserDataMask.Set_ {| UserDataMask.mask := 0x224 |} 3 = Ok m'
    /\ UserDataMask.Index m' 9 = Ok 3
    /\ UserDataMask.Index m' 2 = Ok 0.
Proof.
  destruct (Index_after_Set {| UserDataMask.mask := 0x224 |} 3 9)
    as (m' & r & Hset & Hr & Hidx); try lia.
  destruct (Index_after_Set {| UserDataMask.mask := 0x224 |} 3 2)
    as (m2 & r2 & Hset2 & Hr2 & Hidx2); try lia.
  rewrite Hset in Hset2. injection Hset2 as <-.
  vm_compute in Hr. injection Hr as <-.
  vm_compute in Hr2. injection Hr2 as <-.
  exists m'. split; [exact Hset |]. split; [exact Hidx | exact Hidx2].
Defined.

(** X10. A run of [Set] calls from the empty mask succeeds exactly when
    every register is below 32, and then [NumRegs] is the number of
    different registers in the run. *)
Theorem SetAll_NumRegs (regs : list Z) :
  ((exists m, UserDataMask.SetAll {| UserDataMask.mask := 0 |} regs = Ok m)
   <-> Forall (fun r => 0 <= r < 32) regs)
  /\ (forall m,
        UserDataMask.SetAll {| UserDataMask.mask := 0 |} regs = Ok m ->
        UserDataMask.NumRegs m = Z.of_nat (length (nodup Z.eq_dec regs))).
Proof.
  split.
  - split.
    + intros [m Hm]. apply List.Forall_forall. intros r Hr.
      eapply SetAll_in_range; eauto.
    + intros Hall. rewrite List.Forall_forall in Hall.
      destruct (SetAll_bits regs {| UserDataMask.mask := 0 |} Hall) as (m & Hm & _).
      exists m. exact Hm.
  - intros m Hm. unfold UserDataMask.NumRegs. rewrite popcount_set_bits. f_equal.
    apply Permutation_length, Stdlib.Sorting.Permutation.NoDup_Permutation.
    + apply set_bits_NoDup.
    + apply List.NoDup_nodup.
    + intros x. rewrite nodup_In. apply SetAll_set_bits, Hm.
Qed.

Lemma SetAll_NumRegs_witness :
  exists m,
    UserDataMask.SetAll {| UserDataMask.mask := 0 |} [5; 9; 5; 2] = Ok m
    /\ UserDataMask.NumRegs m = 3.
Proof.
  destruct (SetAll_NumRegs [5; 9; 5; 2]) as [[_ Hex] Hn].
  destruct Hex as [m Hm]; [repeat constructor; lia |].
  exists m. split; [exact Hm |]. rewrite (Hn m Hm). reflexivity.
Defined.

(** ** Stages in sequence *)

Section Stages.

Lemma u32_add_l x y : u32 (u32 x + y) = u32 (x + y).
Proof. unfold u32. apply Zplus_mod_idemp_l. Qed.

Lemma AddBindings_comm a b bnd :
  Info.AddBindings a (Info.AddBindings b bnd)
  = Info.AddBindings b (Info.AddBindings a bnd).
Proof.
  unfold Info.AddBindings. cbn [Bindings.unified Bindings.buffer Bindings.user_data].
  rewrite !u32_add_l. f_equal; f_equal; lia.
Qed.

Lemma AddBindingsAll_cons info stages bnd :
  AddBindingsAll (info :: stages) bnd = AddBindingsAll stages (Info.AddBindings info bnd).
Proof. reflexivity. Qed.

Lemma AddBindings_fields info bnd :
  Info.AddBindings info bnd
  = {| Bindings.unified := u32 (Bindings.unified bnd + stage_unified info);
       Bindings.buffer := u32 (Bindings.buffer bnd + stage_buffers info);
       Bindings.user_data :=
         u32 (Bindings.user_data bnd + UserDataMask.NumRegs (Info.ud_mask info)) |}.
Proof. reflexivity. Qed.

Lemma AddBindingsAll_sum stages : forall bnd,
  stages <> [] ->
  AddBindingsAll stages bnd
  = {| Bindings.unified := u32 (Bindings.unified bnd + total_of stage_unified stages);
       Bindings.buffer := u32 (Bindings.buffer bnd + total_of stage_buffers stages);
       Bindings.user_data := u32 (Bindings.user_data bnd + total_regs stages) |}.
Proof.
  unfold total_regs.
  induction stages as [| info rest IH]; intros bnd Hne; [congruence |].
  rewrite AddBindingsAll_cons. destruct rest as [| info2 rest].
  - cbn [AddBindingsAll fold_left total_of fold_right]. rewrite AddBindings_fields.
    rewrite !Z.add_0_r. reflexivity.
  - rewrite IH by discriminate. rewrite AddBindings_fields.
    cbn [Bindings.unified Bindings.buffer Bindings.user_data].
    rewrite !u32_add_l.
    set (l := info2 :: rest). cbn [total_of fold_right]. fold (total_of stage_unified l).
    fold (total_of stage_buffers l).
    fold (total_of (fun i => UserDataMask.NumRegs (Info.ud_mask i)) l).
    f_equal; f_equal; lia.
Qed.

Lemma total_of_nonneg f stages :
  (forall info, 0 <= f info) -> 0 <= total_of f stages.
Proof.
  intros Hf. induction stages as [| info rest IH]; cbn [total_of fold_right]; [lia |].
  fold (total_of f rest). specialize (Hf info). lia.
Qed.

Lemma total_of_le f g stages :
  (forall info, f info <= g info) -> total_of f stages <= total_of g stages.
Proof.
  intros Hfg. induction stages as [| info rest IH]; cbn [total_of fold_right]; [lia |].
  fold (total_of f rest). fold (total_of g rest). specialize (Hfg info). lia.
Qed.

(** A run of the loop that completes has advanced the counter by one for
    each register and left the other counters alone. *)
Lemma push_regs_counter info regs : forall bnd push bnd' push',
  0 <= Bindings.user_data bnd ->
  push_regs info regs bnd push = Ok (bnd', push') ->
  Bindings.user_data bnd' = Bindings.user_data bnd + Z.of_nat (length regs)
  /\ Bindings.buffer bnd' = Bindings.buffer bnd
  /\ Bindings.unified bnd' = Bindings.unified bnd
  /\ (regs <> [] -> Bindings.user_data bnd' <= NumUserDataRegs).
Proof.
  induction regs as [| i rest IH]; intros bnd push bnd' push' Hc; cbn [push_regs].
  - intros [= <- _]. cbn [length]. repeat split; try lia. congruence.
  - destruct (Z.ltb_spec (Bindings.user_data bnd) NumUserDataRegs) as [Hlt |];
      cbn [andb]; [| discriminate].
    destruct (i <? NumUserDataRegs); [| discriminate].
    destruct (Info.ud_at info i) as [v |]; cbn [rbind]; [| discriminate].
    rewrite u32_small by (unfold is_u32, NumUserDataRegs in *; lia).
    intros Hrun. apply IH in Hrun; cbn [Bindings.user_data] in *; [| lia].
    cbn [Bindings.buffer Bindings.unified] in Hrun. cbn [length].
    destruct Hrun as (Hu & Hb & Hun & Hcap).
    repeat split; try lia. intros _.
    destruct rest as [| r rest']; [cbn [length] in Hu; lia |].
    apply Hcap. discriminate.
Qed.

Lemma total_regs_cons info stages :
  total_regs (info :: stages)
  = UserDataMask.NumRegs (Info.ud_mask info) + total_regs stages.
Proof. reflexivity. Qed.

Lemma total_regs_nonneg stages : 0 <= total_regs stages.
Proof.
  apply total_of_nonneg. intros info. unfold UserDataMask.NumRegs.
  rewrite popcount_set_bits. lia.
Qed.

End Stages.

(** X11. The accumulator after the stages of a pipeline does not depend on
    the order in which [AddBindings] took them, and taking a list of stages
    in two runs, one after the other, is taking it in one. *)
Theorem AddBindingsAll_order (stages stages' : list Info.t) (bnd : Bindings.t) :
  (Permutation stages stages' -> AddBindingsAll stages bnd = AddBindingsAll stages' bnd)
  /\ AddBindingsAll (stages ++ stages') bnd
     = AddBindingsAll stages' (AddBindingsAll stages bnd).
Proof.
  split.
  - intros Hperm. revert bnd.
    induction Hperm as [| x l l' _ IH | x y l | l l' l'' _ IH1 _ IH2]; intros bnd.
    + reflexivity.
    + rewrite !AddBindingsAll_cons. apply IH.
    + rewrite !AddBindingsAll_cons, AddBindings_comm. reflexivity.
    + rewrite IH1. apply IH2.
  - unfold AddBindingsAll. apply fold_left_app.
Qed.

Lemma AddBindingsAll_order_witness :
  AddBindingsAll [sample_info; sample_info_ps] Bindings.zero
  = AddBindingsAll [sample_info_ps; sample_info] Bindings.zero.
Proof.
  destruct (AddBindingsAll_order [sample_info; sample_info_ps]
              [sample_info_ps; sample_info] Bindings.zero) as [H _].
  apply H. apply perm_swap.
Defined.

(** X12. From the zeroed accumulator, when the unified total of the stages
    fits in 32 bits, each counter ends at the sum of what the stages add to
    it, and the buffer counter is never above the unified counter. *)
Theorem AddBindingsAll_totals (stages : list Info.t) :
  total_of stage_unified stages < 2 ^ 32 ->
  Bindings.buffer (AddBindingsAll stages Bindings.zero) = total_of stage_buffers stages
  /\ Bindings.unified (AddBindingsAll stages Bindings.zero) = total_of stage_unified stages
  /\ Bindings.user_data (AddBindingsAll stages Bindings.zero) = u32 (total_regs stages)
  /\ Bindings.buffer (AddBindingsAll stages Bindings.zero)
     <= Bindings.unified (AddBindingsAll stages Bindings.zero).
Proof.
  intros Hfit.
  assert (0 <= total_of stage_buffers stages) as Hb0.
  { apply total_of_nonneg. intros info. unfold stage_buffers. lia. }
  assert (total_of stage_buffers stages <= total_of stage_unified stages) as Hbu.
  { apply total_of_le. intros info. unfold stage_unified. lia. }
  destruct stages as [| info rest].
  - cbn. repeat split; reflexivity || lia.
  - rewrite AddBindingsAll_sum by discriminate.
    cbn [Bindings.unified Bindings.buffer Bindings.user_data Bindings.zero].
    rewrite !Z.add_0_l, !(u32_small (total_of _ _)) by (unfold is_u32; lia).
    repeat split; reflexivity || lia.
Qed.

Lemma AddBindingsAll_totals_witness :
  Bindings.buffer (AddBindingsAll [sample_info; sample_info_ps] Bindings.zero) = 3
  /\ Bindings.unified (AddBindingsAll [sample_info; sample_info_ps] Bindings.zero) = 6.
Proof.
  destruct (AddBindingsAll_totals [sample_info; sample_info_ps]) as (Hb & Hu & _).
  - vm_compute. reflexivity.
  - split; [rewrite Hb | rewrite Hu]; reflexivity.
Defined.

(** X13. Layout and packing agree: when [PushUd] completes it has advanced
    the user-data counter by [NumRegs], to the value [AddBindings] gives it,
    and it has not touched the buffer and unified counters. *)
Theorem PushUd_agrees_AddBindings (info : Info.t) (bnd bnd' : Bindings.t)
    (push push' : PushData.t) :
  is_u32 (UserDataMask.mask (Info.ud_mask info)) ->
  is_u32 (Bindings.user_data bnd) ->
  Info.PushUd info bnd push = Ok (bnd', push') ->
  Bindings.user_data bnd'
  = Bindings.user_data bnd + UserDataMask.NumRegs (Info.ud_mask info)
  /\ Bindings.user_data bnd' = Bindings.user_data (Info.AddBindings info bnd)
  /\ Bindings.buffer bnd' = Bindings.buffer bnd
  /\ Bindings.unified bnd' = Bindings.unified bnd.
Proof.
  intros Hm Hc Hrun. unfold is_u32 in Hc.
  rewrite PushUd_push_regs in Hrun by exact Hm.
  apply push_regs_counter in Hrun as (Hu & Hb & Hun & Hcap); [| lia].
  unfold UserDataMask.NumRegs. rewrite popcount_set_bits.
  split; [exact Hu |]. split; [| split; assumption].
  unfold Info.AddBindings, UserDataMask.NumRegs. cbn [Bindings.user_data].
  rewrite popcount_set_bits, u32_small; [exact Hu |].
  unfold is_u32. rewrite <- Hu.
  destruct (set_bits (UserDataMask.mask (Info.ud_mask info))) as [| r rest].
  - cbn [length] in Hu. lia.
  - specialize (Hcap ltac:(discriminate)). unfold NumUserDataRegs in Hcap.
    cbn [length] in Hu. lia.
Qed.

Lemma PushUd_agrees_AddBindings_witness :
  exists bnd' push',
    Info.PushUd sample_info Bindings.zero sample_push = Ok (bnd', push')
    /\ Bindings.user_data bnd'
       = Bindings.user_data (Info.AddBindings sample_info Bindings.zero).
Proof.
  destruct (Info.PushUd sample_info Bindings.zero sample_push)
    as [[bnd' push'] | f] eqn:Hrun.
  - exists bnd', push'. split; [reflexivity |].
    destruct (PushUd_agrees_AddBindings sample_info Bindings.zero bnd'
                sample_push push') as (_ & H & _).
    + unfold is_u32. cbn. lia.
    + unfold is_u32. cbn. lia.
    + exact Hrun.
    + exact H.
  - vm_compute in Hrun. discriminate Hrun.
Defined.

(** X14. One accumulator and one block through the stages of a pipeline:
    when every stage can be packed and the registers of all stages fit the
    16 slots, [PushUd] of the stages in turn completes, the registers of a
    stage lie in consecutive slots that start where the stages before it
    ended, and no stage overwrites what an earlier one wrote or what lay
    below the first slot. *)
Theorem PushUdAll_packs (stages : list Info.t) : forall (bnd : Bindings.t) (push : PushData.t),
  Forall packable stages ->
  0 <= Bindings.user_data bnd ->
  Bindings.user_data bnd + total_regs stages <= NumUserDataRegs ->
  PushData.wf push ->
  exists bnd' push',
    PushUdAll stages bnd push = Ok (bnd', push')
    /\ Bindings.user_data bnd' = Bindings.user_data bnd + total_regs stages
    /\ PushData.wf push'
    /\ (forall pre info post (k : nat) i,
          stages = pre ++ info :: post ->
          set_bits (UserDataMask.mask (Info.ud_mask info)) !! k = Some i ->
          PushData.ud_regs push'
            !! (Z.to_nat (Bindings.user_data bnd + total_regs pre) + k)%nat
          = Info.user_data info !! Z.to_nat i)
    /\ (forall j : nat,
          (j < Z.to_nat (Bindings.user_data bnd))%nat ->
          PushData.ud_regs push' !! j = PushData.ud_regs push !! j).
Proof.
  induction stages as [| info rest IH]; intros bnd push Hall Hc Hcap Hwf.
  - exists bnd, push. cbn [PushUdAll]. split; [reflexivity |].
    split; [unfold total_regs; cbn; lia |]. split; [exact Hwf |].
    split; [| reflexivity].
    intros pre info post k i Heq. destruct pre; discriminate.
  - inversion Hall as [| ? ? (Hm & Hlow & Hud) Hrest]; subst.
    rewrite total_regs_cons in Hcap.
    pose proof (total_regs_nonneg rest) as Hrest0.
    set (mask := UserDataMask.mask (Info.ud_mask info)) in *.
    assert (UserDataMask.NumRegs (Info.ud_mask info) = Z.of_nat (length (set_bits mask)))
      as Hnum by apply popcount_set_bits.
    rewrite List.Forall_forall in Hlow.
    destruct (push_regs_ok info (set_bits mask) bnd push)
      as (push1 & Hrun & _ & _ & Hbo & Hl & Hw & Hframe).
    { intros i Hi. pose proof (Hlow i Hi). apply in_set_bits in Hi as [Hi _].
      split; [lia |]. apply lookup_lt_is_Some_2. unfold NumUserDataRegs in *. lia. }
    { exact Hc. }
    { lia. }
    { apply Hwf. }
    set (bnd1 := {| Bindings.unified := Bindings.unified bnd;
                    Bindings.buffer := Bindings.buffer bnd;
                    Bindings.user_data :=
                      Bindings.user_data bnd + Z.of_nat (length (set_bits mask)) |}) in *.
    destruct (IH bnd1 push1 Hrest) as (bnd' & push' & Hall' & Hu & Hwf' & Hw' & Hframe').
    { subst bnd1. cbn. lia. }
    { subst bnd1. cbn [Bindings.user_data]. lia. }
    { destruct Hwf as [Hwbo Hwud]. split; [rewrite Hbo | rewrite Hl]; assumption. }
    exists bnd', push'. cbn [PushUdAll].
    rewrite PushUd_push_regs by exact Hm. fold mask. rewrite Hrun.
    cbn [rbind fst snd]. split; [exact Hall' |].
    subst bnd1. cbn [Bindings.user_data] in *.
    split; [rewrite total_regs_cons; lia |]. split; [exact Hwf' |]. split.
    + intros pre info' post k i Heq Hk. destruct pre as [| x pre'].
      * cbn [app] in Heq. injection Heq as <- <-.
        unfold total_regs at 1. cbn [total_of fold_right]. rewrite Z.add_0_r.
        pose proof (lookup_lt_Some _ _ _ Hk) as Hklt. fold mask in Hklt.
        rewrite Hframe' by lia. apply Hw. exact Hk.
      * cbn [app] in Heq. injection Heq as <- ->.
        rewrite total_regs_cons.
        pose proof (total_regs_nonneg pre') as Hpre0.
        rewrite <- (Hw' pre' info' post k i eq_refl Hk). f_equal. lia.
    + intros j Hj. rewrite Hframe' by lia. apply Hframe. lia.
Qed.

Lemma PushUdAll_packs_witness :
  exists bnd' push',
    PushUdAll [sample_info; sample_info_ps] Bindings.zero sample_push = Ok (bnd', push')
    /\ Bindings.user_data bnd' = 5
    /\ PushData.ud_regs push' !! 2%nat = Some 0x90
    /\ PushData.ud_regs push' !! 3%nat = Some 0x1010.
Proof.
  destruct (PushUdAll_packs [sample_info; sample_info_ps] Bindings.zero sample_push)
    as (bnd' & push' & Hrun & Hu & _ & Hw & _).
  - repeat constructor; try (cbn; lia); vm_compute; lia.
  - cbn. lia.
  - vm_compute. discriminate.
  - split; reflexivity.
  - exists bnd', push'. split; [exact Hrun |]. split; [exact Hu |]. split.
    + apply (Hw [] sample_info [sample_info_ps] 2%nat 9 eq_refl eq_refl).
    + apply (Hw [sample_info] sample_info_ps [] 0%nat 0 eq_refl eq_refl).
Defined.

(** ** More on the resolver *)

Section ResolverMore.

Lemma ReadUd_indirect_eq d info mem sz p o lo hi :
  p <> NumScalarRegs d ->
  0 <= p ->
  Info.user_data info !! Z.to_nat p = Some lo ->
  Info.user_data info !! Z.to_nat (p + 1) = Some hi ->
  is_u32 lo -> is_u32 hi ->
  Info.ReadUd d info mem sz p o
  = ([Load (UdPtr (4 * p)) 8;
      Load (MemPtr ((lo + 2 ^ 32 * hi) mod 2 ^ 48 + 4 * o)) sz],
     Ok (map mem (seqZ ((lo + 2 ^ 32 * hi) mod 2 ^ 48 + 4 * o) sz))).
Proof.
  intros Hne Hp Hlo Hhi Hlo32 Hhi32.
  unfold Info.ReadUd. apply Z.eqb_neq in Hne as ->. cbn [negb].
  replace (Z.to_nat (p + 1)) with (S (Z.to_nat p)) in Hhi by lia.
  replace (4 * p) with (4 * Z.of_nat (Z.to_nat p)) by lia.
  rewrite (load_pair _ mem _ lo hi Hlo Hhi).
  cbn [tbind tret app ptr_add load].
  rewrite le_decode_pair by assumption.
  change 0xFFFFFFFFFFFF with (Z.ones 48). rewrite Z.land_ones by lia.
  reflexivity.
Qed.

Lemma pointer_low_48 lo hi :
  is_u32 lo -> 0 <= hi ->
  (lo + 2 ^ 32 * hi) mod 2 ^ 48 = lo + 2 ^ 32 * (hi mod 2 ^ 16).
Proof.
  unfold is_u32. intros Hlo Hhi.
  change (2 ^ 48) with 281474976710656. change (2 ^ 32) with 4294967296 in *.
  change (2 ^ 16) with 65536.
  Z.div_mod_to_equations. lia.
Qed.

End ResolverMore.

(** X15. With the sentinel index and four bytes, [ReadUd] returns the
    user-data register at [dword_offset] itself: its four bytes, low byte
    first, which decode to the word of the register. *)
Theorem ReadUd_sentinel_word (d : Decls) (info : Info.t) (mem : memory) (k w : Z) :
  0 <= k ->
  Info.user_data info !! Z.to_nat k = Some w ->
  is_u32 w ->
  snd (Info.ReadUd d info mem 4 (NumScalarRegs d) k) = Ok (word_bytes w)
  /\ le_decode (word_bytes w) = w.
Proof.
  intros Hk Hw Hw32. split; [| apply le_decode_word, Hw32].
  rewrite ReadUd_sentinel. unfold load.
  pose proof (lookup_lt_Some _ _ _ Hw) as Hlen.
  destruct (Z.leb_spec 0 (4 * k)); [| lia].
  destruct (Z.leb_spec (4 * k + 4) (4 * Z.of_nat (length (Info.user_data info)))); [| lia].
  cbn [andb snd]. f_equal.
  replace (Z.to_nat (4 * k)) with (4 * Z.to_nat k)%nat by lia.
  rewrite drop_span_bytes, (drop_S _ _ _ Hw). reflexivity.
Qed.

Lemma ReadUd_sentinel_word_witness :
  snd (Info.ReadUd sample_decls sample_info sample_memory 4 104 5)
  = Ok (word_bytes 0x12340001).
Proof.
  apply (ReadUd_sentinel_word sample_decls sample_info sample_memory 5 0x12340001).
  - lia.
  - reflexivity.
  - unfold is_u32. lia.
Defined.

(** X16. The upper 16 bits of the pointer held by a register pair play no
    part: two captures that differ in those bits only resolve to the same
    read of memory. *)
Theorem ReadUd_ignores_upper_bits (d : Decls) (info info' : Info.t) (mem : memory)
    (sizeof_T ptr_index dword_offset lo hi hi' : Z) :
  ptr_index <> NumScalarRegs d ->
  0 <= ptr_index ->
  Info.user_data info !! Z.to_nat ptr_index = Some lo ->
  Info.user_data info !! Z.to_nat (ptr_index + 1) = Some hi ->
  Info.user_data info' !! Z.to_nat ptr_index = Some lo ->
  Info.user_data info' !! Z.to_nat (ptr_index + 1) = Some hi' ->
  is_u32 lo -> is_u32 hi -> is_u32 hi' ->
  hi mod 2 ^ 16 = hi' mod 2 ^ 16 ->
  Info.ReadUd d info mem sizeof_T ptr_index dword_offset
  = Info.ReadUd d info' mem sizeof_T ptr_index dword_offset.
Proof.
  intros Hne Hp Hlo Hhi Hlo' Hhi' Hlo32 Hhi32 Hhi32' Hsame.
  rewrite (ReadUd_indirect_eq d info mem sizeof_T ptr_index dword_offset lo hi)
    by assumption.
  rewrite (ReadUd_indirect_eq d info' mem sizeof_T ptr_index dword_offset lo hi')
    by assumption.
  rewrite !pointer_low_48 by (unfold is_u32 in *; try assumption; lia).
  rewrite Hsame. reflexivity.
Qed.

Lemma ReadUd_ignores_upper_bits_witness :
  Info.ReadUd sample_decls sample_info sample_memory 16 4 2
  = Info.ReadUd sample_decls sample_info_hi sample_memory 16 4 2.
Proof.
  apply (ReadUd_ignores_upper_bits sample_decls sample_info sample_info_hi
           sample_memory 16 4 2 0x00400000 0x12340001 0xFFFF0001).
  - discriminate.
  - discriminate.
  - reflexivity.
  - reflexivity.
  - reflexivity.
  - reflexivity.
  - unfold is_u32. lia.
  - unfold is_u32. lia.
  - unfold is_u32. lia.
  - reflexivity.
Defined.

(** X17. A read through a register pair looks at memory in the
    [sizeof(T)] bytes from the masked address plus 4 times [dword_offset]
    and nowhere else: memories that agree there give the same descriptor.
    That address is below 2^48 + 2^34, so forming it does not wrap around
    64 bits. *)
Theorem ReadUd_memory_frame (d : Decls) (info : Info.t) (mem mem' : memory)
    (sizeof_T ptr_index dword_offset lo hi : Z) :
  ptr_index <> NumScalarRegs d ->
  0 <= ptr_index ->
  Info.user_data info !! Z.to_nat ptr_index = Some lo ->
  Info.user_data info !! Z.to_nat (ptr_index + 1) = Some hi ->
  is_u32 lo -> is_u32 hi -> is_u32 dword_offset ->
  let addr := (lo + 2 ^ 32 * hi) mod 2 ^ 48 + 4 * dword_offset in
  0 <= addr < 2 ^ 48 + 2 ^ 34
  /\ ((forall a, addr <= a < addr + sizeof_T -> mem a = mem' a) ->
      Info.ReadUd d info mem sizeof_T ptr_index dword_offset
      = Info.ReadUd d info mem' sizeof_T ptr_index dword_offset).
Proof.
  intros Hne Hp Hlo Hhi Hlo32 Hhi32 Ho32 addr. split.
  - subst addr. unfold is_u32 in Ho32.
    pose proof (Z.mod_pos_bound (lo + 2 ^ 32 * hi) (2 ^ 48) ltac:(lia)). lia.
  - intros Hagree.
    rewrite !(ReadUd_indirect_eq d info _ sizeof_T ptr_index dword_offset lo hi)
      by assumption.
    fold addr. do 2 f_equal. apply map_ext_in. intros a Ha.
    apply Hagree. apply list_elem_of_In, elem_of_seqZ in Ha. exact Ha.
Qed.

Lemma ReadUd_memory_frame_witness :
  Info.ReadUd sample_decls sample_info sample_memory 16 4 2
  = Info.ReadUd sample_decls sample_info
      (fun a => if a <? 0x000100400008 then 0 else sample_memory a) 16 4 2.
Proof.
  destruct (ReadUd_memory_frame sample_decls sample_info sample_memory
              (fun a => if a <? 0x000100400008 then 0 else sample_memory a)
              16 4 2 0x00400000 0x12340001) as [_ H].
  - discriminate.
  - discriminate.
  - reflexivity.
  - reflexivity.
  - unfold is_u32. lia.
  - unfold is_u32. lia.
  - unfold is_u32. lia.
  - apply H. intros a Ha.
    assert ((0x00400000 + 2 ^ 32 * 0x12340001) mod 2 ^ 48 + 4 * 2 = 0x000100400008)
      as Haddr by (vm_compute; reflexivity).
    rewrite Haddr in Ha.
    destruct (Z.ltb_spec a 0x000100400008) as [Hlt |]; [lia | reflexivity].
Defined.

(** ** Draw offsets and stage names *)

(** X18. [GetDrawOffsets] stays inside the user-data span exactly when each
    of the two fields is -1 or an index into the span; with any other
    field it reads outside the span. *)
Theorem GetDrawOffsets_defined (info : Info.t) :
  let inside s := s = -1 \/ 0 <= s < Z.of_nat (length (Info.user_data info)) in
  ((exists r, Info.GetDrawOffsets info = Ok r)
   <-> (inside (Info.vertex_offset_sgpr info) /\ inside (Info.instance_offset_sgpr info)))
  /\ (forall f, Info.GetDrawOffsets info = Err f -> f = OutOfBounds).
Proof.
  intros inside.
  assert (forall s,
            (if negb (s =? -1) then Info.ud_at info s else Ok 0) = Err OutOfBounds
            \/ (inside s /\ exists v, (if negb (s =? -1) then Info.ud_at info s else Ok 0) = Ok v))
    as Hfield.
  { intros s. subst inside. cbn beta.
    destruct (Z.eqb_spec s (-1)) as [-> | Hne]; cbn [negb].
    - right. split; [left; reflexivity | exists 0; reflexivity].
    - unfold Info.ud_at. destruct (Z.ltb_spec s 0); [left; reflexivity |].
      destruct (Info.user_data info !! Z.to_nat s) as [v |] eqn:Hv; cbn [of_option].
      + right. apply lookup_lt_Some in Hv. split; [right; lia | exists v; reflexivity].
      + left. reflexivity. }
  assert (forall s,
            (if negb (s =? -1) then Info.ud_at info s else Ok 0) = Err OutOfBounds ->
            ~ inside s) as Hout.
  { intros s Herr Hin. subst inside. cbn beta in Hin.
    destruct (Z.eq_dec s (-1)) as [Heq | Hne].
    { rewrite Heq in Herr. discriminate Herr. }
    destruct Hin as [? | Hin]; [lia |].
    apply Z.eqb_neq in Hne as Hneb. rewrite Hneb in Herr. cbn [negb] in Herr.
    rewrite ud_at_lookup in Herr by lia.
    destruct (lookup_lt_is_Some_2 (Info.user_data info) (Z.to_nat s)) as [v Hv]; [lia |].
    rewrite Hv in Herr. discriminate. }
  unfold Info.GetDrawOffsets.
  destruct (Hfield (Info.vertex_offset_sgpr info)) as [Hv | [Hvin [v Hv]]];
    destruct (Hfield (Info.instance_offset_sgpr info)) as [Hi | [Hiin [i Hi]]];
    rewrite Hv; cbn [rbind]; rewrite ?Hi; cbn [rbind].
  - split; [| congruence]. split; [intros [r Hr]; discriminate |].
    intros [Hin _]. exfalso. exact (Hout _ Hv Hin).
  - split; [| congruence]. split; [intros [r Hr]; discriminate |].
    intros [Hin _]. exfalso. exact (Hout _ Hv Hin).
  - split; [| congruence]. split; [intros [r Hr]; discriminate |].
    intros [_ Hin]. exfalso. exact (Hout _ Hi Hin).
  - split; [| discriminate]. split; [tauto |]. intros _. eexists. reflexivity.
Qed.

Lemma GetDrawOffsets_defined_witness :
  exists r, Info.GetDrawOffsets sample_info = Ok r.
Proof.
  destruct (GetDrawOffsets_defined sample_info) as [[_ H] _].
  apply H. split; [left; reflexivity | right; cbn; lia].
Defined.

(** X19. The stages 0 to 6, and only they, have a name; each name has two
    characters and no two stages share a name. *)
Theorem format_stage_names (s s' : Z) :
  ((exists n, format_stage s = Ok n) <-> 0 <= s < 7)
  /\ (forall n, format_stage s = Ok n -> String.length n = 2%nat)
  /\ (forall n, format_stage s = Ok n -> format_stage s' = Ok n -> s = s').
Proof.
  assert (forall t n, format_stage t = Ok n ->
            0 <= t < 7 /\ stage_names !! Z.to_nat t = Some n) as Hname.
  { intros t n. unfold format_stage. destruct (Z.ltb_spec t 0); [discriminate |].
    destruct (stage_names !! Z.to_nat t) as [x |] eqn:Hx; cbn [of_option];
      [| discriminate].
    intros [= <-]. split; [| reflexivity].
    apply lookup_lt_Some in Hx. cbn [stage_names length] in Hx. lia. }
  split; [| split].
  - split.
    + intros [n Hn]. apply Hname in Hn. tauto.
    + intros Hs. unfold format_stage. destruct (Z.ltb_spec s 0); [lia |].
      destruct (lookup_lt_is_Some_2 stage_names (Z.to_nat s)) as [n Hn].
      { cbn [stage_names length]. lia. }
      exists n. rewrite Hn. reflexivity.
  - intros n Hn. apply Hname in Hn as [Hs Hn].
    destruct (Z.to_nat s) as [| [| [| [| [| [| [| k]]]]]]]; cbn in Hn;
      try (injection Hn as <-; reflexivity); discriminate.
  - intros n Hn Hn'. apply Hname in Hn as [Hs Hn]. apply Hname in Hn' as [Hs' Hn'].
    assert (Z.to_nat s = Z.to_nat s'); [| lia].
    destruct (Z.to_nat s) as [| [| [| [| [| [| [| k]]]]]]]; cbn in Hn;
      try discriminate; injection Hn as <-;
      destruct (Z.to_nat s') as [| [| [| [| [| [| [| k']]]]]]]; cbn in Hn';
      try discriminate; reflexivity.
Qed.

Lemma format_stage_names_witness : exists n, format_stage 6 = Ok n.
Proof.
  destruct (format_stage_names 6 0) as [[_ H] _].
  apply H. lia.
Defined.

(** * The game grid *)

Section Grid.

Import GameGridFrame.

Lemma cell_of_index gpr k r c :
  0 < gpr -> 0 <= c < gpr -> r * gpr + c = k -> r = k / gpr /\ c = k mod gpr.
Proof.
  intros Hg Hc Hk. split.
  - apply (Z.div_unique k gpr r c); lia.
  - apply (Z.mod_unique k gpr r c); lia.
Qed.

Lemma index_of_cell gpr k :
  0 < gpr -> 0 <= k ->
  0 <= k / gpr /\ 0 <= k mod gpr < gpr /\ k / gpr * gpr + k mod gpr = k.
Proof.
  intros Hg Hk. pose proof (Z.div_mod k gpr ltac:(lia)).
  pose proof (Z.mod_pos_bound k gpr Hg). pose proof (Z.div_pos k gpr Hk Hg). lia.
Qed.

Lemma next_cell gpr k :
  0 < gpr -> 0 <= k ->
  (k mod gpr + 1 = gpr -> (k + 1) / gpr = k / gpr + 1 /\ (k + 1) mod gpr = 0)
  /\ (k mod gpr + 1 <> gpr -> (k + 1) / gpr = k / gpr /\ (k + 1) mod gpr = k mod gpr + 1).
Proof.
  intros Hg Hk. destruct (index_of_cell gpr k Hg Hk) as (Hq & Hr & Heq). split.
  - intros Hlast. symmetry in Heq.
    destruct (cell_of_index gpr (k + 1) (k / gpr + 1) 0 Hg) as [-> ->]; lia.
  - intros Hmid.
    destruct (cell_of_index gpr (k + 1) (k / gpr) (k mod gpr + 1) Hg) as [<- <-]; lia.
Qed.

Lemma placed_step (games : list GameInfo) (gpr : Z) (k : nat) (g : GameInfo)
    (table : gmap (Z * Z) CellWidget) :
  0 < gpr ->
  games !! k = Some g ->
  (forall rc : Z * Z, table !! rc = placed games gpr (Z.of_nat k) rc) ->
  forall rc : Z * Z,
    <[(Z.of_nat k / gpr, Z.of_nat k mod gpr) := make_widget g]> table !! rc
    = placed games gpr (Z.of_nat k + 1) rc.
Proof.
  intros Hg Hk Hinv [r c].
  destruct (index_of_cell gpr (Z.of_nat k) Hg ltac:(lia)) as (Hq & Hr & Heq).
  destruct (decide ((Z.of_nat k / gpr, Z.of_nat k mod gpr) = (r, c))) as [Hrc | Hrc].
  - injection Hrc as <- <-. rewrite lookup_insert_eq. unfold placed.
    destruct (Z.leb_spec 0 (Z.of_nat k / gpr)); [| lia].
    destruct (Z.leb_spec 0 (Z.of_nat k mod gpr)); [| lia].
    destruct (Z.ltb_spec (Z.of_nat k mod gpr) gpr); [| lia].
    rewrite Heq. destruct (Z.ltb_spec (Z.of_nat k) (Z.of_nat k + 1)); [| lia].
    cbn [andb]. rewrite Nat2Z.id, Hk. reflexivity.
  - rewrite lookup_insert_ne by exact Hrc. rewrite Hinv. unfold placed.
    destruct ((0 <=? r) && (0 <=? c) && (c <? gpr)) eqn:Hvalid; [| reflexivity].
    cbn [andb].
    destruct (Z.ltb_spec (r * gpr + c) (Z.of_nat k));
      destruct (Z.ltb_spec (r * gpr + c) (Z.of_nat k + 1)); try reflexivity; try lia.
    exfalso. apply Hrc.
    apply andb_true_iff in Hvalid as [Hvalid Hc2]. apply andb_true_iff in Hvalid as [_ Hc1].
    apply Z.leb_le in Hc1. apply Z.ltb_lt in Hc2.
    destruct (cell_of_index gpr (Z.of_nat k) r c Hg) as [-> ->]; [lia | lia | reflexivity].
Qed.

Lemma at_lookup (v : list GameInfo) (k : nat) : at_ v (Z.of_nat k) = v !! k.
Proof.
  unfold at_. destruct (Z.ltb_spec (Z.of_nat k) 0); [lia |]. rewrite Nat2Z.id. reflexivity.
Qed.

(** The loop places every game that is left and stops. *)
Lemma populate_loop_placed (games : list GameInfo) (gpr : Z) :
  forall fuel (k : nat) (table : gmap (Z * Z) CellWidget),
  0 < gpr < 2 ^ 31 ->
  Z.of_nat (length games) < 2 ^ 31 - 1 ->
  (k <= length games)%nat ->
  (length games - k <= fuel)%nat ->
  (forall rc : Z * Z, table !! rc = placed games gpr (Z.of_nat k) rc) ->
  exists table',
    populate_loop fuel games gpr (Z.of_nat k) (Z.of_nat k)
      (Z.of_nat k / gpr) (Z.of_nat k mod gpr) table
    = Done table'
    /\ forall rc : Z * Z, table' !! rc = placed games gpr (Z.of_nat (length games)) rc.
Proof.
  induction fuel as [| fuel IH]; intros k table Hg Hn Hk Hfuel Hinv.
  - assert (k = length games) as -> by lia. exists table.
    cbn [populate_loop]. rewrite Z.ltb_irrefl. split; [reflexivity | exact Hinv].
  - cbn [populate_loop].
    destruct (Z.ltb_spec (Z.of_nat k) (Z.of_nat (length games))) as [Hlt | Hge].
    2:{ assert (k = length games) as -> by lia. exists table. split; [reflexivity | exact Hinv]. }
    rewrite at_lookup.
    destruct (lookup_lt_is_Some_2 games k) as [g Hgk]; [lia |]. rewrite Hgk.
    destruct (index_of_cell gpr (Z.of_nat k)) as (Hq & Hr & Heq); [lia | lia |].
    destruct (next_cell gpr (Z.of_nat k)) as [Hlast Hmid]; [lia | lia |].
    pose proof (placed_step games gpr k g table ltac:(lia) Hgk Hinv) as Hinv'.
    assert (0 <= Z.of_nat k / gpr < 2 ^ 31 - 1) as Hrow.
    { split; [lia |]. assert (Z.of_nat k / gpr <= Z.of_nat k); [| lia].
      apply Z.div_le_upper_bound; nia. }
    rewrite !s32_small by lia.
    destruct (Z.leb_spec (Z.of_nat (length games)) (Z.of_nat k + 1)) as [Hend | Hmore].
    { eexists. split; [reflexivity |].
      replace (Z.of_nat (length games)) with (Z.of_nat k + 1) by lia. exact Hinv'. }
    replace (Z.of_nat k + 1) with (Z.of_nat (S k)) in * by lia.
    destruct (IH (S k) (<[(Z.of_nat k / gpr, Z.of_nat k mod gpr) := make_widget g]> table))
      as (table' & Hrun & Hfin); try assumption; try lia.
    exists table'. split; [| exact Hfin].
    destruct (Z.eqb_spec (Z.of_nat k mod gpr + 1) gpr) as [Hl | Hm].
    + destruct (Hlast Hl) as [Hq' Hr']. rewrite Hq', Hr' in Hrun. exact Hrun.
    + destruct (Hmid Hm) as [Hq' Hr']. rewrite Hq', Hr' in Hrun. exact Hrun.
Qed.

(** What [PopulateGameGrid] leaves in the frame when the window is at least
    one cell wide. *)
Lemma PopulateGameGrid_result (fr : t) (search : list GameInfo) (fromSearch : bool) :
  let shown := if fromSearch then search else m_games fr in
  let gpr := windowWidth fr / (m_icon_size_grid fr + 20) in
  let n := Z.of_nat (length shown) in
  0 < m_icon_size_grid fr + 20 <= windowWidth fr ->
  windowWidth fr < 2 ^ 31 ->
  n < 2 ^ 31 - 1 ->
  0 < gpr < 2 ^ 31
  /\ exists table,
       PopulateGameGrid fr search fromSearch
       = Done {| m_games := m_games fr;
                 m_icon_size_grid := m_icon_size_grid fr;
                 icon_size := m_icon_size_grid fr;
                 windowWidth := windowWidth fr;
                 columnCount := gpr;
                 rowCount := (n + gpr - 1) / gpr;
                 cells := table;
                 m_games_shared := shown |}
       /\ forall rc : Z * Z, table !! rc = placed shown gpr n rc.
Proof.
  intros shown gpr n Hcell Hww Hn.
  assert (0 < gpr < 2 ^ 31) as Hg.
  { subst gpr. split.
    - apply Z.div_str_pos. lia.
    - assert (windowWidth fr / (m_icon_size_grid fr + 20) <= windowWidth fr); [| lia].
      apply Z.div_le_upper_bound; nia. }
  split; [exact Hg |].
  destruct (populate_loop_placed shown gpr (length shown) 0 ∅) as (table & Hrun & Hinv);
    try lia.
  { intros [r c]. rewrite lookup_empty. unfold placed.
    destruct (Z.ltb_spec (r * gpr + c) (Z.of_nat 0)).
    - destruct ((0 <=? r) && (0 <=? c) && (c <? gpr)) eqn:Hv; [| reflexivity].
      apply andb_true_iff in Hv as [Hv _]. apply andb_true_iff in Hv as [Hr Hc].
      apply Z.leb_le in Hr, Hc. nia.
    - rewrite andb_false_r. reflexivity. }
  exists table. split; [| exact Hinv].
  unfold PopulateGameGrid. fold shown. fold n.
  rewrite (s32_small (m_icon_size_grid fr + 20)) by lia.
  destruct (Z.eqb_spec (m_icon_size_grid fr + 20) 0); [lia |].
  rewrite Z.quot_div_nonneg by lia. fold gpr. rewrite (s32_small gpr) by lia.
  destruct (Z.eqb_spec gpr 0); [lia |].
  change (Z.of_nat 0 / gpr) with (0 / gpr) in Hrun.
  change (Z.of_nat 0 mod gpr) with (0 mod gpr) in Hrun.
  rewrite Z.div_0_l, Z.mod_0_l in Hrun by lia.
  change (Z.of_nat 0) with 0 in Hrun. rewrite Hrun.
  rewrite Z.quot_div_nonneg, Z.rem_mod_nonneg by lia.
  do 2 f_equal.
  destruct (index_of_cell gpr n) as (Hq & Hr & Heq); [lia | lia |].
  assert (n / gpr <= n) as Hqn by (apply Z.div_le_upper_bound; nia).
  rewrite (s32_small (n / gpr)) by lia.
  destruct (Z.eqb_spec (n mod gpr) 0) as [Hz | Hnz]; cbn [negb].
  - apply (Z.div_unique _ gpr _ (gpr - 1)); lia.
  - rewrite s32_small by lia.
    apply (Z.div_unique _ gpr _ (n mod gpr - 1)); lia.
Qed.

End Grid.

(** X20. In a window at least one cell wide, [PopulateGameGrid] shows the
    search result or the whole list as asked, with as many columns as cells
    of [icon size + 20] fit the window and just the rows the games need;
    the i-th game of the list gets the cell in row [i / columns], column
    [i mod columns], and a cell holds a widget only if it is the cell of a
    game, inside the rows and columns of the table. *)
Theorem PopulateGameGrid_places (fr : GameGridFrame.t)
    (search : list GameGridFrame.GameInfo) (fromSearch : bool) :
  let shown := if fromSearch then search else GameGridFrame.m_games fr in
  let gpr := GameGridFrame.windowWidth fr / (GameGridFrame.m_icon_size_grid fr + 20) in
  let n := Z.of_nat (length shown) in
  0 < GameGridFrame.m_icon_size_grid fr + 20 <= GameGridFrame.windowWidth fr ->
  GameGridFrame.windowWidth fr < 2 ^ 31 ->
  n < 2 ^ 31 - 1 ->
  exists fr',
    GameGridFrame.PopulateGameGrid fr search fromSearch = GameGridFrame.Done fr'
    /\ GameGridFrame.columnCount fr' = gpr
    /\ 0 < gpr
    /\ GameGridFrame.rowCount fr' = (n + gpr - 1) / gpr
    /\ (GameGridFrame.rowCount fr' - 1) * gpr < n <= GameGridFrame.rowCount fr' * gpr
    /\ GameGridFrame.m_games_shared fr' = shown
    /\ (forall (i : nat) g,
          shown !! i = Some g ->
          GameGridFrame.cells fr' !! (Z.of_nat i / gpr, Z.of_nat i mod gpr)
          = Some (GameGridFrame.make_widget g))
    /\ (forall r c w,
          GameGridFrame.cells fr' !! (r, c) = Some w ->
          0 <= r < GameGridFrame.rowCount fr'
          /\ 0 <= c < GameGridFrame.columnCount fr'
          /\ exists g, shown !! Z.to_nat (r * gpr + c) = Some g
                       /\ w = GameGridFrame.make_widget g).
Proof.
  intros shown gpr n Hcell Hww Hn.
  destruct (PopulateGameGrid_result fr search fromSearch Hcell Hww Hn)
    as (Hg & table & Hrun & Hinv).
  fold shown in Hrun, Hinv. fold gpr in Hg, Hrun, Hinv. fold n in Hrun, Hinv.
  eexists. split; [exact Hrun |].
  cbn [GameGridFrame.columnCount GameGridFrame.rowCount GameGridFrame.cells
       GameGridFrame.m_games_shared].
  assert ((n + gpr - 1) / gpr = (n - 1) / gpr + 1) as Hrows.
  { replace (n + gpr - 1) with (n - 1 + 1 * gpr) by lia. apply Z.div_add. lia. }
  assert (forall r c, 0 <= c -> r * gpr + c < n -> r < (n + gpr - 1) / gpr) as Hrow.
  { intros r c Hc Hlt. rewrite Hrows.
    assert (r <= (n - 1) / gpr); [| lia]. apply Z.div_le_lower_bound; lia. }
  split; [reflexivity |]. split; [lia |]. split; [reflexivity |]. split.
  { rewrite Hrows. pose proof (Z.div_mod (n - 1) gpr ltac:(lia)).
    pose proof (Z.mod_pos_bound (n - 1) gpr ltac:(lia)). nia. }
  split; [reflexivity |]. split.
  - intros i g Hi. rewrite Hinv. unfold GameGridFrame.placed.
    destruct (index_of_cell gpr (Z.of_nat i)) as (Hq & Hr & Heq); [lia | lia |].
    pose proof (lookup_lt_Some _ _ _ Hi) as Hlt.
    destruct (Z.leb_spec 0 (Z.of_nat i / gpr)); [| lia].
    destruct (Z.leb_spec 0 (Z.of_nat i mod gpr)); [| lia].
    destruct (Z.ltb_spec (Z.of_nat i mod gpr) gpr); [| lia].
    rewrite Heq. destruct (Z.ltb_spec (Z.of_nat i) n); [| lia].
    cbn [andb]. rewrite Nat2Z.id, Hi. reflexivity.
  - intros r c w Hw. rewrite Hinv in Hw. unfold GameGridFrame.placed in Hw.
    destruct (Z.leb_spec 0 r); [| discriminate].
    destruct (Z.leb_spec 0 c); [| discriminate].
    destruct (Z.ltb_spec c gpr); [| discriminate].
    destruct (Z.ltb_spec (r * gpr + c) n); [| discriminate].
    cbn [andb] in Hw. apply fmap_Some in Hw as (g & Hg' & ->).
    split; [split; [lia | eapply Hrow; eauto] |]. split; [lia |].
    exists g. split; [exact Hg' | reflexivity].
Qed.

Lemma PopulateGameGrid_places_witness :
  exists fr',
    GameGridFrame.PopulateGameGrid sample_frame [] false = GameGridFrame.Done fr'
    /\ GameGridFrame.columnCount fr' = 4
    /\ GameGridFrame.rowCount fr' = 2
    /\ GameGridFrame.cells fr' !! (1, 0)
       = Some (GameGridFrame.make_widget (sample_game "CUSA00005")).
Proof.
  destruct (PopulateGameGrid_places sample_frame [] false)
    as (fr' & Hrun & Hc & _ & Hr & _ & _ & Hcell & _).
  - cbn. lia.
  - cbn. lia.
  - cbn. lia.
  - exists fr'. split; [exact Hrun |]. split; [exact Hc |]. split; [exact Hr |].
    apply (Hcell 4%nat (sample_game "CUSA00005")). reflexivity.
Defined.

(** X21. After [PopulateGameGrid], a click on the cell of the i-th game
    shown selects the picture of that very game, a click on a cell without
    a widget does nothing, and no click indexes outside the list the grid
    was built from. *)
Theorem SetGridBackgroundImage_after_populate (fr fr' : GameGridFrame.t)
    (search : list GameGridFrame.GameInfo) (fromSearch : bool) :
  let shown := if fromSearch then search else GameGridFrame.m_games fr in
  let gpr := GameGridFrame.windowWidth fr / (GameGridFrame.m_icon_size_grid fr + 20) in
  0 < GameGridFrame.m_icon_size_grid fr + 20 <= GameGridFrame.windowWidth fr ->
  GameGridFrame.windowWidth fr < 2 ^ 31 ->
  Z.of_nat (length shown) < 2 ^ 31 - 1 ->
  GameGridFrame.PopulateGameGrid fr search fromSearch = GameGridFrame.Done fr' ->
  (forall (i : nat) g,
     shown !! i = Some g ->
     GameGridFrame.SetGridBackgroundImage fr' (Z.of_nat i / gpr) (Z.of_nat i mod gpr)
     = GameGridFrame.Done
         (Some (GameGridFrame.pic_path g,
                "/game_data/" +:+ GameGridFrame.serial g +:+ "/pic1.png")))
  /\ (forall row column,
        GameGridFrame.cells fr' !! (row, column) = None ->
        GameGridFrame.SetGridBackgroundImage fr' row column = GameGridFrame.Done None)
  /\ (forall row column,
        GameGridFrame.SetGridBackgroundImage fr' row column <> GameGridFrame.BadIndex).
Proof.
  intros shown gpr Hcell Hww Hn Hdone.
  destruct (PopulateGameGrid_result fr search fromSearch Hcell Hww Hn)
    as (Hg & table & Hrun & Hinv).
  fold shown in Hrun, Hinv. fold gpr in Hg, Hrun, Hinv.
  rewrite Hrun in Hdone. injection Hdone as <-.
  unfold GameGridFrame.SetGridBackgroundImage.
  cbn [GameGridFrame.columnCount GameGridFrame.cells GameGridFrame.m_games_shared].
  assert (forall r c w,
            table !! (r, c) = Some w ->
            exists g, GameGridFrame.at_ shown (s32 (s32 (r * gpr) + c)) = Some g
                      /\ shown !! Z.to_nat (r * gpr + c) = Some g) as Hitem.
  { intros r c w Hw. rewrite Hinv in Hw. unfold GameGridFrame.placed in Hw.
    destruct (Z.leb_spec 0 r); [| discriminate].
    destruct (Z.leb_spec 0 c); [| discriminate].
    destruct (Z.ltb_spec c gpr); [| discriminate].
    destruct (Z.ltb_spec (r * gpr + c) (Z.of_nat (length shown))); [| discriminate].
    cbn [andb] in Hw. apply fmap_Some in Hw as (g & Hg' & _).
    exists g. split; [| exact Hg'].
    assert (0 <= r * gpr) by nia.
    rewrite (s32_small (r * gpr)) by lia. rewrite s32_small by lia.
    unfold GameGridFrame.at_. destruct (Z.ltb_spec (r * gpr + c) 0); [lia | exact Hg']. }
  split; [| split].
  - intros i g Hi.
    destruct (index_of_cell gpr (Z.of_nat i)) as (Hq & Hr & Heq); [lia | lia |].
    pose proof (lookup_lt_Some _ _ _ Hi) as Hlt.
    assert (table !! (Z.of_nat i / gpr, Z.of_nat i mod gpr)
            = Some (GameGridFrame.make_widget g)) as Hcellw.
    { rewrite Hinv. unfold GameGridFrame.placed.
      destruct (Z.leb_spec 0 (Z.of_nat i / gpr)); [| lia].
      destruct (Z.leb_spec 0 (Z.of_nat i mod gpr)); [| lia].
      destruct (Z.ltb_spec (Z.of_nat i mod gpr) gpr); [| lia].
      rewrite Heq. destruct (Z.ltb_spec (Z.of_nat i) (Z.of_nat (length shown))); [| lia].
      cbn [andb]. rewrite Nat2Z.id, Hi. reflexivity. }
    destruct (Hitem _ _ _ Hcellw) as (g' & Hat & Hg').
    rewrite Heq, Nat2Z.id, Hi in Hg'. injection Hg' as <-.
    rewrite Hcellw, Hat. reflexivity.
  - intros row column Hnone. rewrite Hnone. reflexivity.
  - intros row column.
    destruct (table !! (row, column)) as [w |] eqn:Hw; [| discriminate].
    destruct (Hitem _ _ _ Hw) as (g & Hat & _). rewrite Hat. discriminate.
Qed.

Lemma SetGridBackgroundImage_after_populate_witness :
  exists fr',
    GameGridFrame.PopulateGameGrid sample_frame [] false = GameGridFrame.Done fr'
    /\ GameGridFrame.SetGridBackgroundImage fr' 1 0
       = GameGridFrame.Done
           (Some ("/games/CUSA00005/sce_sys/pic1.png", "/game_data/CUSA00005/pic1.png")).
Proof.
  destruct (GameGridFrame.PopulateGameGrid sample_frame [] false) as [fr' | | |] eqn:Hrun;
    try (vm_compute in Hrun; discriminate Hrun).
  exists fr'. split; [reflexivity |].
  destruct (SetGridBackgroundImage_after_populate sample_frame fr' [] false)
    as (H & _).
  - cbn. lia.
  - cbn. lia.
  - cbn. lia.
  - exact Hrun.
  - apply (H 4%nat (sample_game "CUSA00005")). reflexivity.
Defined.

(** X22. In a window narrower than one cell of [icon size + 20] no game
    fits a row, and [PopulateGameGrid] divides the number of games by the
    zero games per row, whatever the list, the empty one included; with an
    icon size of -20 it already divides the width by zero. *)
Theorem PopulateGameGrid_narrow_window (fr : GameGridFrame.t)
    (search : list GameGridFrame.GameInfo) (fromSearch : bool) :
  GameGridFrame.m_icon_size_grid fr + 20 = 0
  \/ (0 <= GameGridFrame.windowWidth fr < GameGridFrame.m_icon_size_grid fr + 20
      /\ GameGridFrame.m_icon_size_grid fr + 20 < 2 ^ 31) ->
  GameGridFrame.PopulateGameGrid fr search fromSearch = GameGridFrame.DivisionByZero.
Proof.
  intros [Hzero | [Hnarrow Hint]]; unfold GameGridFrame.PopulateGameGrid.
  - rewrite Hzero. reflexivity.
  - rewrite s32_small by lia.
    destruct (Z.eqb_spec (GameGridFrame.m_icon_size_grid fr + 20) 0); [lia |].
    rewrite Z.quot_small by lia. reflexivity.
Qed.

Lemma PopulateGameGrid_narrow_window_witness :
  GameGridFrame.PopulateGameGrid sample_narrow_frame [] true
  = GameGridFrame.DivisionByZero.
Proof.
  apply (PopulateGameGrid_narrow_window sample_narrow_frame [] true).
  right. cbn. lia.
Defined.
